(** * A single-upstream reverse proxy: model of [proxy/proxy.go]

    The handler [ServeHTTP] rewrites an inbound request so that it targets
    the one configured upstream, stamps the caller's address, issues the
    outbound call and relays status, headers, body and trailers into the
    response writer.  The development embeds the handler and the library
    calls it relies on as functions over explicit state:

    - [http.Header] is a finite map from keys to value lists;
    - the response writer records its header map, the status and header
      snapshot taken by the first [WriteHeader], the body bytes written
      so far and the log of the calls made on it;
    - [range] over a Go map visits the entries in an unspecified order, so
      every such loop takes the visiting order as an argument, constrained
      to be a permutation of the map's entries;
    - the network behind [Client.Do] is a function argument.

    The goroutine that calls [Flush] every 10ms only affects when bytes
    already written leave the buffer; it is outside this model. *)

From Stdlib Require Import ZArith Ascii String.
From Stdlib Require PrimFloat FloatOps Uint63 SpecFloat.
From stdpp Require Import gmap strings list fin_maps.

Local Open Scope string_scope.
Local Open Scope Z_scope.

(** ** Go values *)

(** A result [(T, error)] is a sum: [inl] carries the value returned with a
    nil error, [inr] the non-nil error.  Where the handler only prints an
    error, the error is the text its [Error()] method returns. *)
Definition error := string.

Abbreviation Header := (gmap string (list string)).

(** ** Bytes and strings *)

Module Bytes.

Definition code (c : ascii) : Z := Z.of_N (N_of_ascii c).

Definition between (lo hi c : ascii) : bool :=
  (code lo <=? code c) && (code c <=? code hi).

Definition is_lower (c : ascii) : bool := between "a" "z" c.
Definition is_upper (c : ascii) : bool := between "A" "Z" c.
Definition is_digit (c : ascii) : bool := between "0" "9" c.

(** The distance between the two cases, ['a' - 'A']. *)
Definition toLower : Z := code "a" - code "A".

Definition of_code (z : Z) : ascii := ascii_of_N (Z.to_N z).

Definition eqb (a b : ascii) : bool := Ascii.eqb a b.

Fixpoint mem (c : ascii) (s : string) : bool :=
  match s with
  | EmptyString => false
  | String d s' => eqb c d || mem c s'
  end.

End Bytes.

Module Strings.

Definition len (s : string) : Z := Z.of_nat (String.length s).

(** [s[lo:hi]] *)
Definition slice (s : string) (lo hi : Z) : string :=
  String.substring (Z.to_nat lo) (Z.to_nat (hi - lo)) s.

(** [s[lo:]] *)
Definition slice_from (s : string) (lo : Z) : string :=
  slice s lo (len s).

(** [s[i]], for an index within the string. *)
Definition at_ (s : string) (i : Z) : option ascii :=
  String.get (Z.to_nat i) s.

(** [bytealg.IndexByteString]: first position of [c], or [-1]. *)
Fixpoint IndexByte_from (i : Z) (s : string) (c : ascii) : Z :=
  match s with
  | EmptyString => -1
  | String d s' => if Bytes.eqb d c then i else IndexByte_from (i + 1) s' c
  end.

Definition IndexByte (s : string) (c : ascii) : Z := IndexByte_from 0 s c.

(** [bytealg.LastIndexByteString]: last position of [c], or [-1]. *)
Fixpoint LastIndexByte_from (i : Z) (s : string) (c : ascii) : Z :=
  match s with
  | EmptyString => -1
  | String d s' =>
      let later := LastIndexByte_from (i + 1) s' c in
      if 0 <=? later then later else if Bytes.eqb d c then i else -1
  end.

Definition LastIndexByte (s : string) (c : ascii) : Z :=
  LastIndexByte_from 0 s c.

(** [strings.Join] *)
Fixpoint Join (elems : list string) (sep : string) : string :=
  match elems with
  | [] => ""
  | [e] => e
  | e :: rest => e +:+ sep +:+ Join rest sep
  end.

(** [strings.HasPrefix] *)
Fixpoint HasPrefix (s prefix : string) : bool :=
  match prefix, s with
  | EmptyString, _ => true
  | String p prefix', String c s' => Bytes.eqb c p && HasPrefix s' prefix'
  | String _ _, EmptyString => false
  end.

(** [strings.HasSuffix], for a one-byte suffix. *)
Fixpoint HasSuffixByte (s : string) (c : ascii) : bool :=
  match s with
  | EmptyString => false
  | String d EmptyString => Bytes.eqb d c
  | String _ s' => HasSuffixByte s' c
  end.

(** [strings.Index]: first position at which [substr] starts, or [-1]. *)
Fixpoint Index_from (i : Z) (s substr : string) : Z :=
  if HasPrefix s substr then i
  else match s with
       | EmptyString => -1
       | String _ s' => Index_from (i + 1) s' substr
       end.

Definition Index (s substr : string) : Z := Index_from 0 s substr.

(** [strings.Count], for a one-byte separator. *)
Fixpoint CountByte (s : string) (c : ascii) : Z :=
  match s with
  | EmptyString => 0
  | String d s' => (if Bytes.eqb d c then 1 else 0) + CountByte s' c
  end.

(** [strings.Cut], for a one-byte separator. *)
Definition Cut (s : string) (sep : ascii) : string * string * bool :=
  let i := IndexByte s sep in
  if 0 <=? i then (slice s 0 i, slice_from s (i + 1), true)
  else (s, "", false).

(** [strings.ToLower] on ASCII text. *)
Fixpoint ToLower (s : string) : string :=
  match s with
  | EmptyString => EmptyString
  | String c s' =>
      String (if Bytes.is_upper c
              then Bytes.of_code (Bytes.code c + Bytes.toLower) else c)
             (ToLower s')
  end.

Definition is_empty (s : string) : bool :=
  match s with EmptyString => true | String _ _ => false end.

End Strings.

(** Sequencing of calls that return [(T, error)]. *)
Notation "'let*' x ':=' e 'in' k" :=
  (match e with inl x => k | inr err => inr err end)
  (at level 10, x pattern, e at level 200, k at level 200, only parsing).

(** ** [net/textproto]: canonical header keys *)

Module Textproto.

(** [validHeaderFieldByte]: the token bytes of RFC 7230. *)
Definition validHeaderFieldByte (c : ascii) : bool :=
  Bytes.is_lower c || Bytes.is_upper c || Bytes.is_digit c
  || Bytes.mem c "!#$%&'*+-.^_`|~".

(** First loop of [canonicalMIMEHeaderKey]: [None] when a byte is neither
    a token byte nor a space, otherwise the final [noCanon] flag. *)
Fixpoint scan (a : string) (noCanon : bool) : option bool :=
  match a with
  | EmptyString => Some noCanon
  | String c a' =>
      if validHeaderFieldByte c then scan a' noCanon
      else if Bytes.eqb c " " then scan a' true
      else None
  end.

(** Second loop of [canonicalMIMEHeaderKey]: upper case at the start
    and after each dash, lower case elsewhere. *)
Fixpoint recase (upper : bool) (a : string) : string :=
  match a with
  | EmptyString => EmptyString
  | String c a' =>
      let c' :=
        if upper && Bytes.is_lower c
        then Bytes.of_code (Bytes.code c - Bytes.toLower)
        else if negb upper && Bytes.is_upper c
        then Bytes.of_code (Bytes.code c + Bytes.toLower)
        else c in
      String c' (recase (Bytes.eqb c' "-") a')
  end.

Definition canonicalMIMEHeaderKey (a : string) : string * bool :=
  match scan a false with
  | None => (a, false)
  | Some true => (a, true)
  | Some false => (recase true a, true)
  end.

(** The loop of [CanonicalMIMEHeaderKey] over the bytes [rest] still to
    inspect of the key [s]. *)
Fixpoint quick (upper : bool) (rest s : string) : string :=
  match rest with
  | EmptyString => s
  | String c rest' =>
      if negb (validHeaderFieldByte c) then s
      else if upper && Bytes.is_lower c then fst (canonicalMIMEHeaderKey s)
      else if negb upper && Bytes.is_upper c then fst (canonicalMIMEHeaderKey s)
      else quick (Bytes.eqb c "-") rest' s
  end.

Definition CanonicalMIMEHeaderKey (s : string) : string := quick true s s.

End Textproto.

(** ** [net/http]: headers *)

Module HeaderOps.

(** [h.Set(key, value)]: the entry of the canonical key becomes the
    one-element list [value]. *)
Definition Set_ (key value : string) (h : Header) : Header :=
  <[Textproto.CanonicalMIMEHeaderKey key := [value]]> h.

(** [h.Get(key)]: first value stored under the canonical key, or [""]. *)
Definition Get (key : string) (h : Header) : string :=
  match h !! Textproto.CanonicalMIMEHeaderKey key with
  | Some (v :: _) => v
  | _ => ""
  end.

End HeaderOps.


(** ** [net]: splitting an address into host and port *)

Module Net.

Definition missingPort : string := "missing port in address".
Definition tooManyColons : string := "too many colons in address".

(** [(&AddrError{Err: why, Addr: addr}).Error()] *)
Definition addrErr (addr why : string) : error :=
  if decide (addr = "") then why else "address " +:+ addr +:+ ": " +:+ why.

Definition byte_is (s : string) (i : Z) (c : ascii) : bool :=
  match Strings.at_ s i with
  | Some d => Bytes.eqb d c
  | None => false
  end.

(** The bracketed and the plain branch of [SplitHostPort]: the host
    together with the offsets [j] and [k] from which stray brackets are
    searched. *)
Definition split_host (hostport : string) (i : Z) : string * Z * Z + error :=
  if byte_is hostport 0 "[" then
    let end_ := Strings.IndexByte hostport "]" in
    if end_ <? 0 then inr (addrErr hostport "missing ']' in address")
    else if end_ + 1 =? Strings.len hostport then
      inr (addrErr hostport missingPort)
    else if end_ + 1 =? i then
      inl (Strings.slice hostport 1 end_, 1, end_ + 1)
    else if byte_is hostport (end_ + 1) ":" then
      inr (addrErr hostport tooManyColons)
    else inr (addrErr hostport missingPort)
  else
    let host := Strings.slice hostport 0 i in
    if 0 <=? Strings.IndexByte host ":" then
      inr (addrErr hostport tooManyColons)
    else inl (host, 0, 0).

Definition SplitHostPort (hostport : string) : string * string + error :=
  let i := Strings.LastIndexByte hostport ":" in
  if i <? 0 then inr (addrErr hostport missingPort)
  else
    match split_host hostport i with
    | inr err => inr err
    | inl (host, j, k) =>
        if 0 <=? Strings.IndexByte (Strings.slice_from hostport j) "[" then
          inr (addrErr hostport "unexpected '[' in address")
        else if 0 <=? Strings.IndexByte (Strings.slice_from hostport k) "]" then
          inr (addrErr hostport "unexpected ']' in address")
        else inl (host, Strings.slice_from hostport (i + 1))
    end.

End Net.


(** ** [net/url]: parsing a URL

    [Parse] follows the library function of the same name.  The [RawPath]
    and [RawFragment] encoding hints of the library's [URL] are left out:
    they do not influence whether parsing succeeds nor any other field. *)

Module Url.

Inductive encoding :=
  | encodePath | encodePathSegment | encodeHost | encodeZone
  | encodeUserPassword | encodeQueryComponent | encodeFragment.

Definition is_host_mode (mode : encoding) : bool :=
  match mode with encodeHost | encodeZone => true | _ => false end.

Record Userinfo := {
  username : string;
  password : string;
  passwordSet : bool
}.

Record URL := {
  Scheme : string;
  Opaque : string;
  User : option Userinfo;
  Host : string;
  Path : string;
  OmitHost : bool;
  ForceQuery : bool;
  RawQuery : string;
  Fragment : string
}.

(** The errors [parse] and its helpers return. *)
Inductive ParseErr :=
  | InvalidControlCharacter
  | EmptyUrl
  | MissingProtocolScheme
  | InvalidURIForRequest
  | FirstPathSegmentColon
  | EscapeError (s : string)
  | InvalidHostError (s : string)
  | MissingBracketInHost
  | InvalidPort (colonPort : string)
  | InvalidUserinfo.

(** [url.Error] *)
Record Error := {
  Op : string;
  ErrURL : string;
  Err : ParseErr
}.

Definition zero : URL :=
  {| Scheme := ""; Opaque := ""; User := None; Host := ""; Path := "";
     OmitHost := false; ForceQuery := false; RawQuery := ""; Fragment := "" |}.

Definition ishex (c : ascii) : bool :=
  Bytes.is_digit c || Bytes.between "a" "f" c || Bytes.between "A" "F" c.

Definition unhex (c : ascii) : Z :=
  if Bytes.is_digit c then Bytes.code c - Bytes.code "0"
  else if Bytes.between "a" "f" c then Bytes.code c - Bytes.code "a" + 10
  else if Bytes.between "A" "F" c then Bytes.code c - Bytes.code "A" + 10
  else 0.

Definition quote_byte : ascii := Bytes.of_code 34.

Definition shouldEscape (c : ascii) (mode : encoding) : bool :=
  if Bytes.is_lower c || Bytes.is_upper c || Bytes.is_digit c then false
  else if is_host_mode mode
          && (Bytes.mem c "!$&'()*+,;=:[]<>" || Bytes.eqb c quote_byte)
  then false
  else if Bytes.mem c "-_.~" then false
  else if Bytes.mem c "$&+,/:;=?@" then
    match mode with
    | encodePath => Bytes.eqb c "?"
    | encodePathSegment => Bytes.mem c "/;,?"
    | encodeUserPassword => Bytes.mem c "@/?:"
    | encodeQueryComponent => true
    | encodeFragment => false
    | encodeHost | encodeZone => true
    end
  else match mode with
       | encodeFragment => negb (Bytes.mem c "!()*")
       | _ => true
       end.

(** At most the first three bytes of [s]. *)
Definition first3 (s : string) : string := Strings.slice s 0 3.

(** First loop of [unescape]: the escapes are well formed and, in a
    host, no byte needs escaping. *)
Fixpoint unescape_check (s : string) (mode : encoding) : option ParseErr :=
  match s with
  | EmptyString => None
  | String c s' =>
      if Bytes.eqb c "%" then
        match s' with
        | String a (String b s'') =>
            let esc := String c (String a (String b EmptyString)) in
            let is25 := Bytes.eqb a "2" && Bytes.eqb b "5" in
            if negb (ishex a && ishex b) then Some (EscapeError (first3 s))
            else if match mode with encodeHost => true | _ => false end
                    && (unhex a <? 8) && negb is25
            then Some (EscapeError esc)
            else if match mode with encodeZone => true | _ => false end
                    && negb is25
                    && negb (Bytes.eqb
                               (Bytes.of_code (Z.lor (Z.shiftl (unhex a) 4) (unhex b)))
                               " ")
                    && shouldEscape
                         (Bytes.of_code (Z.lor (Z.shiftl (unhex a) 4) (unhex b)))
                         encodeHost
            then Some (EscapeError esc)
            else unescape_check s'' mode
        | _ => Some (EscapeError (first3 s))
        end
      else if Bytes.eqb c "+" then unescape_check s' mode
      else if is_host_mode mode && (Bytes.code c <? 128)
              && shouldEscape c encodeHost
      then Some (InvalidHostError (String c EmptyString))
      else unescape_check s' mode
  end.

(** Second loop of [unescape]: decode the escapes. *)
Fixpoint unescape_decode (s : string) (mode : encoding) : string :=
  match s with
  | EmptyString => EmptyString
  | String c s' =>
      if Bytes.eqb c "%" then
        match s' with
        | String a (String b s'') =>
            String (Bytes.of_code (Z.lor (Z.shiftl (unhex a) 4) (unhex b)))
                   (unescape_decode s'' mode)
        | _ => String c (unescape_decode s' mode)
        end
      else if Bytes.eqb c "+" then
        String (match mode with encodeQueryComponent => " "%char | _ => "+"%char end)
               (unescape_decode s' mode)
      else String c (unescape_decode s' mode)
  end.

Definition unescape (s : string) (mode : encoding) : string + ParseErr :=
  match unescape_check s mode with
  | Some err => inr err
  | None => inl (unescape_decode s mode)
  end.

Definition stringContainsCTLByte (s : string) : bool :=
  existsb (fun c => (Bytes.code c <? 32) || (Bytes.code c =? 127))
          (list_ascii_of_string s).

(** The loop of [getScheme] at position [i], over the bytes [rest] still
    to inspect of [rawURL]. *)
Fixpoint getScheme_loop (i : Z) (rest rawURL : string)
  : string * string + ParseErr :=
  match rest with
  | EmptyString => inl ("", rawURL)
  | String c rest' =>
      if Bytes.is_lower c || Bytes.is_upper c then
        getScheme_loop (i + 1) rest' rawURL
      else if Bytes.is_digit c || Bytes.mem c "+-." then
        if i =? 0 then inl ("", rawURL)
        else getScheme_loop (i + 1) rest' rawURL
      else if Bytes.eqb c ":" then
        if i =? 0 then inr MissingProtocolScheme
        else inl (Strings.slice rawURL 0 i, Strings.slice_from rawURL (i + 1))
      else inl ("", rawURL)
  end.

Definition getScheme (rawURL : string) : string * string + ParseErr :=
  getScheme_loop 0 rawURL rawURL.

Definition validOptionalPort (port : string) : bool :=
  match port with
  | EmptyString => true
  | String c digits =>
      Bytes.eqb c ":" && forallb Bytes.is_digit (list_ascii_of_string digits)
  end.

Definition validUserinfo (s : string) : bool :=
  forallb (fun r => Bytes.is_upper r || Bytes.is_lower r || Bytes.is_digit r
                    || Bytes.mem r "-._:~!$&'()*+,;=%@")
          (list_ascii_of_string s).

Definition parseHost (host : string) : string + ParseErr :=
  if Strings.HasPrefix host "[" then
    let i := Strings.LastIndexByte host "]" in
    if i <? 0 then inr MissingBracketInHost
    else
      let colonPort := Strings.slice_from host (i + 1) in
      if negb (validOptionalPort colonPort) then inr (InvalidPort colonPort)
      else
        let zone := Strings.Index (Strings.slice host 0 i) "%25" in
        if 0 <=? zone then
          let* host1 := unescape (Strings.slice host 0 zone) encodeHost in
          let* host2 := unescape (Strings.slice host zone i) encodeZone in
          let* host3 := unescape (Strings.slice_from host i) encodeHost in
          inl (host1 +:+ host2 +:+ host3)
        else unescape host encodeHost
  else
    let i := Strings.LastIndexByte host ":" in
    if negb (i =? -1) && negb (validOptionalPort (Strings.slice_from host i))
    then inr (InvalidPort (Strings.slice_from host i))
    else unescape host encodeHost.

Definition parseAuthority (authority : string)
  : option Userinfo * string + ParseErr :=
  let i := Strings.LastIndexByte authority "@" in
  let* host := (if i <? 0 then parseHost authority
                else parseHost (Strings.slice_from authority (i + 1))) in
  if i <? 0 then inl (None, host)
  else
    let userinfo := Strings.slice authority 0 i in
    if negb (validUserinfo userinfo) then inr InvalidUserinfo
    else if Strings.IndexByte userinfo ":" <? 0 then
      let* userinfo := unescape userinfo encodeUserPassword in
      inl (Some {| username := userinfo; password := ""; passwordSet := false |},
           host)
    else
      let '(username, password, _) := Strings.Cut userinfo ":" in
      let* username := unescape username encodeUserPassword in
      let* password := unescape password encodeUserPassword in
      inl (Some {| username := username; password := password;
                   passwordSet := true |}, host).

Definition setScheme (u : URL) (v : string) : URL :=
  {| Scheme := v; Opaque := Opaque u; User := User u; Host := Host u;
     Path := Path u; OmitHost := OmitHost u; ForceQuery := ForceQuery u;
     RawQuery := RawQuery u; Fragment := Fragment u |}.

Definition setHost (u : URL) (v : string) : URL :=
  {| Scheme := Scheme u; Opaque := Opaque u; User := User u; Host := v;
     Path := Path u; OmitHost := OmitHost u; ForceQuery := ForceQuery u;
     RawQuery := RawQuery u; Fragment := Fragment u |}.

(** [u.setPath(p)] *)
Definition setPath (u : URL) (p : string) : URL + ParseErr :=
  let* path := unescape p encodePath in
  inl {| Scheme := Scheme u; Opaque := Opaque u; User := User u;
         Host := Host u; Path := path; OmitHost := OmitHost u;
         ForceQuery := ForceQuery u; RawQuery := RawQuery u;
         Fragment := Fragment u |}.

(** [u.setFragment(f)] *)
Definition setFragment (u : URL) (f : string) : URL + ParseErr :=
  let* frag := unescape f encodeFragment in
  inl {| Scheme := Scheme u; Opaque := Opaque u; User := User u;
         Host := Host u; Path := Path u; OmitHost := OmitHost u;
         ForceQuery := ForceQuery u; RawQuery := RawQuery u;
         Fragment := frag |}.

(** [parse(rawURL, viaRequest)] *)
Definition parse (rawURL : string) (viaRequest : bool) : URL + ParseErr :=
  if stringContainsCTLByte rawURL then inr InvalidControlCharacter
  else if Strings.is_empty rawURL && viaRequest then inr EmptyUrl
  else if String.eqb rawURL "*" then
    inl {| Scheme := ""; Opaque := ""; User := None; Host := ""; Path := "*";
           OmitHost := false; ForceQuery := false; RawQuery := "";
           Fragment := "" |}
  else
    let* (scheme, rest) := getScheme rawURL in
    let scheme := Strings.ToLower scheme in
    let '(rest, forceQuery, rawQuery) :=
      if Strings.HasSuffixByte rest "?" && (Strings.CountByte rest "?" =? 1)
      then (Strings.slice rest 0 (Strings.len rest - 1), true, "")
      else let '(before, after, _) := Strings.Cut rest "?" in
           (before, false, after) in
    let url := {| Scheme := scheme; Opaque := ""; User := None; Host := "";
                  Path := ""; OmitHost := false; ForceQuery := forceQuery;
                  RawQuery := rawQuery; Fragment := "" |} in
    let rooted := Strings.HasPrefix rest "/" in
    if negb rooted && negb (Strings.is_empty scheme) then
      inl {| Scheme := scheme; Opaque := rest; User := None; Host := "";
             Path := ""; OmitHost := false; ForceQuery := forceQuery;
             RawQuery := rawQuery; Fragment := "" |}
    else if negb rooted && viaRequest then inr InvalidURIForRequest
    else if negb rooted
            && (0 <=? Strings.IndexByte (fst (fst (Strings.Cut rest "/"))) ":")
    then inr FirstPathSegmentColon
    else if (negb (Strings.is_empty scheme)
             || negb viaRequest && negb (Strings.HasPrefix rest "///"))
            && Strings.HasPrefix rest "//"
    then
      let authority := Strings.slice_from rest 2 in
      let i := Strings.IndexByte authority "/" in
      let '(authority, rest) :=
        if 0 <=? i
        then (Strings.slice authority 0 i, Strings.slice_from authority i)
        else (authority, "") in
      let* (user, host) := parseAuthority authority in
      setPath {| Scheme := scheme; Opaque := ""; User := user; Host := host;
                 Path := ""; OmitHost := false; ForceQuery := forceQuery;
                 RawQuery := rawQuery; Fragment := "" |} rest
    else if negb (Strings.is_empty scheme) && rooted then
      setPath {| Scheme := scheme; Opaque := ""; User := None; Host := "";
                 Path := ""; OmitHost := true; ForceQuery := forceQuery;
                 RawQuery := rawQuery; Fragment := "" |} rest
    else setPath url rest.

(** [url.Parse(rawURL)] *)
Definition Parse (rawURL : string) : URL + Error :=
  let '(u, frag, _) := Strings.Cut rawURL "#" in
  match parse u false with
  | inr err => inr {| Op := "parse"; ErrURL := u; Err := err |}
  | inl url =>
      if Strings.is_empty frag then inl url
      else match setFragment url frag with
           | inr err => inr {| Op := "parse"; ErrURL := rawURL; Err := err |}
           | inl url => inl url
           end
  end.

(** [u.IsAbs()]: a URL is absolute when it has a scheme. *)
Definition IsAbs (u : URL) : bool := negb (Strings.is_empty (Scheme u)).

End Url.

(** ** [net/http]: requests, responses, the response writer, the client *)

Module Request.

Record t := {
  Method : string;
  URL : Url.URL;
  ProtoMajor : Z;
  Header : Header;
  Body : string;
  Host : string;
  RemoteAddr : string;
  RequestURI : string
}.

Definition set_Host (r : t) (v : string) : t :=
  {| Method := Method r; URL := URL r; ProtoMajor := ProtoMajor r;
     Header := Header r; Body := Body r; Host := v;
     RemoteAddr := RemoteAddr r; RequestURI := RequestURI r |}.

Definition set_URL (r : t) (v : Url.URL) : t :=
  {| Method := Method r; URL := v; ProtoMajor := ProtoMajor r;
     Header := Header r; Body := Body r; Host := Host r;
     RemoteAddr := RemoteAddr r; RequestURI := RequestURI r |}.

Definition set_RequestURI (r : t) (v : string) : t :=
  {| Method := Method r; URL := URL r; ProtoMajor := ProtoMajor r;
     Header := Header r; Body := Body r; Host := Host r;
     RemoteAddr := RemoteAddr r; RequestURI := v |}.

Definition set_Header (r : t) (v : gmap string (list string)) : t :=
  {| Method := Method r; URL := URL r; ProtoMajor := ProtoMajor r;
     Header := v; Body := Body r; Host := Host r;
     RemoteAddr := RemoteAddr r; RequestURI := RequestURI r |}.

End Request.

Module Response.

(** [Body] is the sequence of chunks that successive reads of the body
    stream deliver; [BodyErr] is the error, if any, with which the next
    read then fails instead of reporting the end of the stream (the total
    timeout of the client expiring, the connection being reset).
    [Trailer] is the trailer map as it is when the client call returns:
    the library fills in the values only once the body has been read to
    its end, and [TrailerAtEOF] is the map as it is once the body has been
    read. *)
Record t := {
  StatusCode : Z;
  Header : Header;
  Body : list string;
  BodyErr : option error;
  Trailer : gmap string (list string);
  TrailerAtEOF : gmap string (list string)
}.

End Response.

Definition StatusOK : Z := 200.
Definition StatusInternalServerError : Z := 500.

Module ResponseWriter.

(** The calls a handler makes on its response writer. *)
Inductive Call :=
  | HeaderSet (key value : string)
  | CallWriteHeader (statusCode : Z)
  | CallWrite (data : string).

(** [header] is the map [Header()] returns; [wrote] holds, once the
    header has been written, the status code and the copy of [header] taken
    at that moment; [body] is what has been written so far; [calls] logs
    the handler's calls, oldest first. *)
Record t := {
  header : Header;
  wrote : option (Z * gmap string (list string));
  body : string;
  calls : list Call
}.

Definition new : t :=
  {| header := ∅; wrote := None; body := ""; calls := [] |}.

(** [w.Header().Set(key, value)] *)
Definition Header_Set (key value : string) (w : t) : t :=
  {| header := HeaderOps.Set_ key value (header w); wrote := wrote w;
     body := body w; calls := calls w ++ [HeaderSet key value] |}.

(** What [WriteHeader] does to the status line: only the first call counts
    and freezes the headers. *)
Definition commit (statusCode : Z) (w : t) : option (Z * Header) :=
  match wrote w with
  | Some done => Some done
  | None => Some (statusCode, header w)
  end.

(** [w.WriteHeader(statusCode)] *)
Definition WriteHeader (statusCode : Z) (w : t) : t :=
  {| header := header w; wrote := commit statusCode w; body := body w;
     calls := calls w ++ [CallWriteHeader statusCode] |}.

(** [w.Write(data)]: writes the header with status 200 first when the
    handler has not written it. *)
Definition Write (data : string) (w : t) : t :=
  {| header := header w; wrote := commit StatusOK w; body := body w +:+ data;
     calls := calls w ++ [CallWrite data] |}.

Definition newline : string := String (Bytes.of_code 10) EmptyString.

(** [fmt.Fprintln(w, err)] *)
Definition Fprintln (err : error) (w : t) : t := Write (err +:+ newline) w.

(** [io.Copy(w, body)]: every chunk read is written in turn.  The call
    returns the number of bytes copied and the error that ended the
    reading, if it was not the end of the stream. *)
Definition Copy (chunks : list string) (w : t) : t :=
  foldl (fun w chunk => Write chunk w) w chunks.

(** The response as the caller receives it. *)
Record Relayed := {
  status : Z;
  headers : Header;
  content : string
}.

Definition relayed (w : t) : option Relayed :=
  match wrote w with
  | Some (code, snapshot) =>
      Some {| status := code; headers := snapshot; content := body w |}
  | None => None
  end.

End ResponseWriter.

(** [time.Duration], in nanoseconds. *)
Definition Millisecond : Z := 1000000.
Definition Second : Z := 1000 * Millisecond.

Module Transport.

(** [NextProtos] and [InsecureSkipVerify] are the fields of
    [TLSClientConfig]; [DialTimeout] is the timeout of the dialer behind
    [DialContext]; [altProto] is the set of schemes for which an alternate
    round tripper has been registered.  The upgrade functions the library
    keeps in [TLSNextProto] are not represented. *)
Record t := {
  DialTimeout : Z;
  TLSHandshakeTimeout : Z;
  ResponseHeaderTimeout : Z;
  InsecureSkipVerify : bool;
  NextProtos : list string;
  altProto : gset string
}.

(** [t.RegisterProtocol(scheme, rt)]: panics, with the text on the right,
    when the scheme is already registered. *)
Definition RegisterProtocol (scheme : string) (tr : t) : t + string :=
  if decide (scheme ∈ altProto tr)
  then inr ("protocol " +:+ scheme +:+ " already registered")
  else inl {| DialTimeout := DialTimeout tr;
              TLSHandshakeTimeout := TLSHandshakeTimeout tr;
              ResponseHeaderTimeout := ResponseHeaderTimeout tr;
              InsecureSkipVerify := InsecureSkipVerify tr;
              NextProtos := NextProtos tr;
              altProto := {[scheme]} ∪ altProto tr |}.

Definition set_NextProtos (tr : t) (v : list string) : t :=
  {| DialTimeout := DialTimeout tr;
     TLSHandshakeTimeout := TLSHandshakeTimeout tr;
     ResponseHeaderTimeout := ResponseHeaderTimeout tr;
     InsecureSkipVerify := InsecureSkipVerify tr;
     NextProtos := v;
     altProto := altProto tr |}.

End Transport.

Module Client.

Record t := {
  Timeout : Z;
  Transport : Transport.t
}.

End Client.

(** ** [golang.org/x/net/http2]: enabling HTTP/2 on a transport *)

Module Http2.

Definition strSliceContains (ss : list string) (s : string) : bool :=
  bool_decide (s ∈ ss).

(** [http2.ConfigureTransport(t1)].  Its documentation: "It returns an
    error if t1 has already been HTTP/2-enabled."  The registration of the
    "https" scheme comes first; the panic of a second registration is
    recovered and returned as the error, leaving [t1] as it was. *)
Definition ConfigureTransport (t1 : Transport.t) : Transport.t + error :=
  let* t1 := Transport.RegisterProtocol "https" t1 in
  let t1 :=
    if strSliceContains (Transport.NextProtos t1) "h2" then t1
    else Transport.set_NextProtos t1 ("h2" :: Transport.NextProtos t1) in
  let t1 :=
    if strSliceContains (Transport.NextProtos t1) "http/1.1" then t1
    else Transport.set_NextProtos t1 (Transport.NextProtos t1 ++ ["http/1.1"]) in
  inl t1.

End Http2.

(** ** Package [proxy] *)

Module proxy.

(** [Proxy]: the upstream and the client used to reach it. *)
Record Proxy := {
  Host : Url.URL;
  Client : Client.t
}.

(** [fmt.Errorf("parse url: %w", err)] *)
Inductive NewError :=
  | ParseUrlError (err : Url.Error).

(** The client [New] builds. *)
Definition outbound_client : Client.t :=
  {| Client.Timeout := Second * 5;
     Client.Transport :=
       {| Transport.DialTimeout := Second;
          Transport.TLSHandshakeTimeout := Second;
          Transport.ResponseHeaderTimeout := Second;
          Transport.InsecureSkipVerify := true;
          Transport.NextProtos := [];
          Transport.altProto := ∅ |} |}.

(** [New(host)] *)
Definition New (host : string) : Proxy + NewError :=
  match Url.Parse host with
  | inr err => inr (ParseUrlError err)
  | inl u => inl {| Host := u; Client := outbound_client |}
  end.

(** A string is a valid absolute URL when it parses and has a scheme. *)
Definition valid_absolute_url (s : string) : bool :=
  match Url.Parse s with
  | inl u => Url.IsAbs u
  | inr _ => false
  end.

(** The world behind [p.Client.Do(r)]: what the call returns for a client
    and a request. *)
Definition Network := Client.t → Request.t → Response.t + error.

(** The order in which a [range] statement visits the entries of a map. *)
Definition Ordering := gmap string (list string) → list (string * list string).

Definition visits_all (range : Ordering) : Prop :=
  ∀ m, range m ≡ₚ map_to_list m.

(** One ordering for each of the three [range] loops of [ServeHTTP]. *)
Record Ranges := {
  range_header : Ordering;
  range_trailer_keys : Ordering;
  range_trailer_values : Ordering
}.

Definition fair (rg : Ranges) : Prop :=
  visits_all (range_header rg) ∧ visits_all (range_trailer_keys rg)
  ∧ visits_all (range_trailer_values rg).

(** What one call of [ServeHTTP] leaves behind: the response writer, the
    request (rewritten in place), the proxy (whose transport the call may
    have configured) and the calls of [Client.Do], each with the request
    it was given and what it returned. *)
Record Exchange := {
  w_out : ResponseWriter.t;
  r_out : Request.t;
  p_out : Proxy;
  sent : list (Request.t * (Response.t + error))
}.

Definition set_Transport (p : Proxy) (tr : Transport.t) : Proxy :=
  {| Host := Host p;
     Client := {| Client.Timeout := Client.Timeout (Client p);
                  Client.Transport := tr |} |}.

(** The error exit, three times in [ServeHTTP]:
    [w.WriteHeader(http.StatusInternalServerError); fmt.Fprintln(w, err)]. *)
Definition internal_error (err : error) (w : ResponseWriter.t)
  : ResponseWriter.t :=
  ResponseWriter.Fprintln err
    (ResponseWriter.WriteHeader StatusInternalServerError w).

(** [for _, val := range values { w.Header().Set(key, val) }] *)
Definition set_each (key : string) (values : list string)
    (w : ResponseWriter.t) : ResponseWriter.t :=
  foldl (fun w val => ResponseWriter.Header_Set key val w) w values.

(** [for key, values := range m { for _, val := range values { ... } }],
    over the entries in visiting order. *)
Definition copy_entries (entries : list (string * list string))
    (w : ResponseWriter.t) : ResponseWriter.t :=
  foldl (fun w entry => set_each entry.1 entry.2 w) w entries.

(** [for key := range resp.Trailer { trailerKeys = append(trailerKeys, key) }] *)
Definition collect_keys (entries : list (string * list string)) : list string :=
  foldl (fun (trailerKeys : list string) entry => (trailerKeys ++ [entry.1])%list)
        [] entries.

(** The rewrite at the top of [ServeHTTP]. *)
Definition forwarding (p : Proxy) (r : Request.t) : Request.t :=
  let r := Request.set_Host r (Url.Host (Host p)) in
  let r := Request.set_URL r (Url.setHost (Request.URL r) (Url.Host (Host p))) in
  let r := Request.set_URL r (Url.setScheme (Request.URL r) (Url.Scheme (Host p))) in
  Request.set_RequestURI r "".

(** The relay of the upstream response, from the header copy to the
    trailer values.  The handler calls [io.Copy] as a statement: what the
    call returns, the error [Response.BodyErr] included, is dropped. *)
Definition relay (rg : Ranges) (resp : Response.t) (w : ResponseWriter.t)
  : ResponseWriter.t :=
  let w := copy_entries (range_header rg (Response.Header resp)) w in
  let trailerKeys := collect_keys (range_trailer_keys rg (Response.Trailer resp)) in
  let w := ResponseWriter.Header_Set "Trailer" (Strings.Join trailerKeys ",") w in
  let w := ResponseWriter.WriteHeader (Response.StatusCode resp) w in
  let w := ResponseWriter.Copy (Response.Body resp) w in
  copy_entries (range_trailer_values rg (Response.TrailerAtEOF resp)) w.

(** [(p *Proxy) ServeHTTP(w, r)] *)
Definition ServeHTTP (net : Network) (rg : Ranges)
    (p : Proxy) (w : ResponseWriter.t) (r : Request.t) : Exchange :=
  let r := forwarding p r in
  match Net.SplitHostPort (Request.RemoteAddr r) with
  | inr err =>
      {| w_out := internal_error err w; r_out := r; p_out := p; sent := [] |}
  | inl (ip, _) =>
      let r := Request.set_Header r
                 (HeaderOps.Set_ "X-Forwarded-For" ip (Request.Header r)) in
      match (if Request.ProtoMajor r =? 2
             then Http2.ConfigureTransport (Client.Transport (Client p))
             else inl (Client.Transport (Client p))) with
      | inr err =>
          {| w_out := internal_error err w; r_out := r; p_out := p;
             sent := [] |}
      | inl tr =>
          let p := set_Transport p tr in
          match net (Client p) r with
          | inr err =>
              {| w_out := internal_error err w; r_out := r; p_out := p;
                 sent := [(r, inr err)] |}
          | inl resp =>
              {| w_out := relay rg resp w; r_out := r; p_out := p;
                 sent := [(r, inl resp)] |}
          end
      end
  end.

(** The calls that copying [entries] makes on the response writer. *)
Definition set_calls (entries : list (string * list string))
  : list ResponseWriter.Call :=
  flat_map (fun entry => ResponseWriter.HeaderSet entry.1 <$> entry.2) entries.

(** Whether a call log holds a [Trailer] announcement. *)
Definition announces_trailers (log : list ResponseWriter.Call) : bool :=
  existsb (fun call =>
             match call with
             | ResponseWriter.HeaderSet key _ =>
                 String.eqb (Textproto.CanonicalMIMEHeaderKey key) "Trailer"
             | _ => false
             end) log.

(** Header keys as the client delivers them: every key is its own
    canonical form. *)
Definition canonical_keys (h : gmap string (list string)) : Prop :=
  ∀ k, is_Some (h !! k) → Textproto.CanonicalMIMEHeaderKey k = k.

(** Handling two requests one after the other with the same proxy. *)
Definition serve_twice (net : Network) (rg1 rg2 : Ranges) (p : Proxy)
    (r1 r2 : Request.t) : Exchange * Exchange :=
  let first := ServeHTTP net rg1 p ResponseWriter.new r1 in
  (first, ServeHTTP net rg2 (p_out first) ResponseWriter.new r2).

End proxy.

(** ** Concrete exchanges

    The upstream of the repository's tests: status 201, a response header,
    the body "Hello World!" and the trailer [X-Trailer]. *)

Module Scenario.
Import proxy.

Definition upstream_url : Url.URL :=
  {| Url.Scheme := "http"; Url.Opaque := ""; Url.User := None;
     Url.Host := "127.0.0.1:9000"; Url.Path := ""; Url.OmitHost := false;
     Url.ForceQuery := false; Url.RawQuery := ""; Url.Fragment := "" |}.

Definition fresh_proxy : Proxy :=
  {| Host := upstream_url; Client := outbound_client |}.

Definition inbound_url : Url.URL :=
  {| Url.Scheme := ""; Url.Opaque := ""; Url.User := None; Url.Host := "";
     Url.Path := "/items"; Url.OmitHost := false; Url.ForceQuery := false;
     Url.RawQuery := "page=2"; Url.Fragment := "" |}.

(** A request of the given protocol version whose caller already set a
    forwarded-for header. *)
Definition request (protoMajor : Z) (remoteAddr : string) : Request.t :=
  {| Request.Method := "GET";
     Request.URL := inbound_url;
     Request.ProtoMajor := protoMajor;
     Request.Header :=
       {[ "Test-Header-1" := ["1"];
          "X-Forwarded-For" := ["203.0.113.7"; "198.51.100.4"] ]};
     Request.Body := "";
     Request.Host := "proxy.example";
     Request.RemoteAddr := remoteAddr;
     Request.RequestURI := "/items?page=2" |}.

Definition created : Response.t :=
  {| Response.StatusCode := 201;
     Response.Header := {[ "Response-Header-1" := ["1"]; "X" := ["1"; "2"] ]};
     Response.Body := ["Hello "; "World!"];
     Response.Trailer := {[ "X-Trailer" := [] ]};
     Response.BodyErr := None;
     Response.TrailerAtEOF := {[ "X-Trailer" := ["X-Value"] ]} |}.

(** A response sent with a content length: the client leaves its
    [Trailer] header among the headers and declares no trailer. *)
Definition trailer_header_kept : Response.t :=
  {| Response.StatusCode := 200;
     Response.Header := {[ "Content-Length" := ["2"]; "Trailer" := ["X-Trailer"] ]};
     Response.Body := ["ok"];
     Response.Trailer := ∅;
     Response.BodyErr := None;
     Response.TrailerAtEOF := ∅ |}.

(** The same upstream response without any trailer. *)
Definition created_no_trailer : Response.t :=
  {| Response.StatusCode := 201;
     Response.Header := {[ "Response-Header-1" := ["1"] ]};
     Response.Body := ["Hello World!"];
     Response.Trailer := ∅;
     Response.BodyErr := None;
     Response.TrailerAtEOF := ∅ |}.

(** A header map that no client call returns: two spellings of one key. *)
Definition colliding_keys : Response.t :=
  {| Response.StatusCode := 200;
     Response.Header := {[ "x-a" := ["1"]; "X-A" := ["2"] ]};
     Response.Body := [];
     Response.Trailer := ∅;
     Response.BodyErr := None;
     Response.TrailerAtEOF := ∅ |}.

(** An upstream response that declares two trailers. *)
Definition two_trailers : Response.t :=
  {| Response.StatusCode := 200;
     Response.Header := {[ "Content-Type" := ["text/plain"] ]};
     Response.Body := ["ok"];
     Response.Trailer := {[ "X-Checksum" := []; "X-Length" := [] ]};
     Response.BodyErr := None;
     Response.TrailerAtEOF :=
       {[ "X-Checksum" := ["9a0364b9"]; "X-Length" := ["2"] ]} |}.

Definition always (resp : Response.t) : Network := fun _ _ => inl resp.

Definition unreachable : Network :=
  fun _ _ => inr "dial tcp 127.0.0.1:9000: connect: connection refused".

Definition in_order : Ranges :=
  {| range_header := map_to_list;
     range_trailer_keys := map_to_list;
     range_trailer_values := map_to_list |}.

Definition reversed : Ranges :=
  {| range_header := fun m => reverse (map_to_list m);
     range_trailer_keys := fun m => reverse (map_to_list m);
     range_trailer_values := fun m => reverse (map_to_list m) |}.

End Scenario.

(** ** Package [proxy], before HTTP/2 and trailers

    The earlier state of the package: [New] builds the client without a
    TLS configuration, and [ServeHTTP] relays the status, the headers and
    the body, and nothing else. *)

Module proxy_plain.
Import proxy.

(** The client [New] builds. *)
Definition outbound_client : Client.t :=
  {| Client.Timeout := Second * 5;
     Client.Transport :=
       {| Transport.DialTimeout := Second;
          Transport.TLSHandshakeTimeout := Second;
          Transport.ResponseHeaderTimeout := Second;
          Transport.InsecureSkipVerify := false;
          Transport.NextProtos := [];
          Transport.altProto := ∅ |} |}.

(** [New(host)] *)
Definition New (host : string) : Proxy + NewError :=
  match Url.Parse host with
  | inr err => inr (ParseUrlError err)
  | inl u => inl {| Host := u; Client := outbound_client |}
  end.

(** The relay of the upstream response: header copy, status, body. *)
Definition relay (range : Ordering) (resp : Response.t) (w : ResponseWriter.t)
  : ResponseWriter.t :=
  let w := copy_entries (range (Response.Header resp)) w in
  let w := ResponseWriter.WriteHeader (Response.StatusCode resp) w in
  ResponseWriter.Copy (Response.Body resp) w.

(** [(p *Proxy) ServeHTTP(w, r)] *)
Definition ServeHTTP (net : Network) (range : Ordering)
    (p : Proxy) (w : ResponseWriter.t) (r : Request.t) : Exchange :=
  let r := forwarding p r in
  match Net.SplitHostPort (Request.RemoteAddr r) with
  | inr err =>
      {| w_out := internal_error err w; r_out := r; p_out := p; sent := [] |}
  | inl (ip, _) =>
      let r := Request.set_Header r
                 (HeaderOps.Set_ "X-Forwarded-For" ip (Request.Header r)) in
      match net (Client p) r with
      | inr err =>
          {| w_out := internal_error err w; r_out := r; p_out := p;
             sent := [(r, inr err)] |}
      | inl resp =>
          {| w_out := relay range resp w; r_out := r; p_out := p;
             sent := [(r, inl resp)] |}
      end
  end.

End proxy_plain.

(** ** Package [main]: the settings of [run]

    [run] first reads its settings from the environment; what follows in
    the function (the certificate, the listener, the wait for a signal) is
    not represented.  [settings] takes [time.ParseDuration] as a
    parameter; module [Time] below models that function. *)

Module main.

(** [os.Getenv(key)]: the empty string when the variable is not set. *)
Definition Getenv (env : gmap string string) (key : string) : string :=
  default "" (env !! key).

(** [if s == "" { s = fallback }] *)
Definition or_default (s fallback : string) : string :=
  if Strings.is_empty s then fallback else s.

(** [fmt.Errorf("%s is not a valid duration: %w", s, err)] *)
Definition not_a_duration (s : string) (err : error) : error :=
  s +:+ " is not a valid duration: " +:+ err.

Record Settings := {
  host : string;
  readTimeout : Z;
  writeTimeout : Z;
  shutdownTimeout : Z
}.

(** The environment in which [key], when unset or empty, is set to
    [value]. *)
Definition with_default (key value : string) (env : gmap string string)
  : gmap string string :=
  if Strings.is_empty (Getenv env key) then <[key := value]> env else env.

Section run.

Variable ParseDuration : string → Z + error.

(** The statements of [run] from its start to the last timeout. *)
Definition settings (env : gmap string string) : Settings + error :=
  let host := Getenv env "HOST" in
  if Strings.is_empty host then inr "HOST is required environment variable"
  else
    let readTimeoutSTR := or_default (Getenv env "READ_TIMEOUT") "5s" in
    match ParseDuration readTimeoutSTR with
    | inr err => inr (not_a_duration readTimeoutSTR err)
    | inl readTimeout =>
        let writeTimeoutSTR := or_default (Getenv env "WRITE_TIMEOUT") "10s" in
        match ParseDuration writeTimeoutSTR with
        | inr err => inr (not_a_duration writeTimeoutSTR err)
        | inl writeTimeout =>
            let shutdownTimeoutSTR :=
              or_default (Getenv env "SHUTDOWN_TIMEOUT") "20s" in
            match ParseDuration shutdownTimeoutSTR with
            | inr err => inr (not_a_duration shutdownTimeoutSTR err)
            | inl shutdownTimeout =>
                inl {| host := host; readTimeout := readTimeout;
                       writeTimeout := writeTimeout;
                       shutdownTimeout := shutdownTimeout |}
            end
        end
    end.

End run.

End main.

(** ** [time]: parsing a duration

    [ParseDuration] follows the library function of the same name.
    Durations are counted in nanoseconds; the accumulators are unsigned
    64-bit integers and the fraction of a number is scaled with 64-bit
    floating point arithmetic, as in the library. *)

Module Time.

Definition Nanosecond : Z := 1.
Definition Microsecond : Z := 1000 * Nanosecond.
Definition Minute : Z := 60 * Second.
Definition Hour : Z := 60 * Minute.

Definition lowerhex : string := "0123456789abcdef".

Definition hex_digit (n : Z) : ascii :=
  match String.get (Z.to_nat n) lowerhex with
  | Some c => c
  | None => "0"%char
  end.

(** The loop of [quote]: bytes outside printable ASCII are written as
    [\x] and two hexadecimal digits, a quote or a backslash is preceded by
    a backslash. *)
Fixpoint quote_bytes (s : string) : string :=
  match s with
  | EmptyString => EmptyString
  | String c s' =>
      let n := Bytes.code c in
      if (128 <=? n) || (n <? 32) then
        String "\" (String "x" (String (hex_digit (Z.shiftr n 4))
                                  (String (hex_digit (Z.land n 15))
                                     (quote_bytes s'))))
      else if Bytes.eqb c Url.quote_byte || Bytes.eqb c "\" then
        String "\" (String c (quote_bytes s'))
      else String c (quote_bytes s')
  end.

Definition quote (s : string) : string :=
  String Url.quote_byte (quote_bytes s +:+ String Url.quote_byte EmptyString).

Definition invalid_duration (orig : string) : error :=
  "time: invalid duration " +:+ quote orig.

Definition missing_unit (orig : string) : error :=
  "time: missing unit in duration " +:+ quote orig.

Definition unknown_unit (u orig : string) : error :=
  "time: unknown unit " +:+ quote u +:+ " in duration " +:+ quote orig.

(** [leadingInt]: the leading digits of [s] as a number, with the rest of
    [s]; [None] on overflow. *)
Fixpoint leadingInt (x : Z) (s : string) : option (Z * string) :=
  match s with
  | EmptyString => Some (x, EmptyString)
  | String c s' =>
      if Bytes.is_digit c then
        if 2 ^ 63 / 10 <? x then None
        else
          let x := x * 10 + (Bytes.code c - Bytes.code "0") in
          if 2 ^ 63 <? x then None else leadingInt x s'
      else Some (x, s)
  end.

Definition float_of_uint64 (z : Z) : PrimFloat.float :=
  if z <? 2 ^ 62 then PrimFloat.of_uint63 (Uint63.of_Z z)
  else PrimFloat.mul (PrimFloat.of_uint63 (Uint63.of_Z (Z.shiftr z 1)))
                     (PrimFloat.of_uint63 (Uint63.of_Z 2)).

(** [uint64(x)] for a non-negative float: the integer part. *)
Definition uint64_of_float (x : PrimFloat.float) : Z :=
  match FloatOps.Prim2SF x with
  | SpecFloat.S754_finite false m e =>
      if 0 <=? e then Z.shiftl (Z.pos m) e else Z.shiftr (Z.pos m) (- e)
  | _ => 0
  end.

(** [leadingFraction]: the leading digits of [s] as a number [x] and the
    power of ten [scale] such that the fraction is [x / scale]; digits
    that would overflow are skipped. *)
Fixpoint leadingFraction (x : Z) (scale : PrimFloat.float) (overflow : bool)
    (s : string) : Z * PrimFloat.float * string :=
  match s with
  | EmptyString => (x, scale, EmptyString)
  | String c s' =>
      if Bytes.is_digit c then
        if overflow then leadingFraction x scale true s'
        else if (2 ^ 63 - 1) / 10 <? x then leadingFraction x scale true s'
        else
          let y := x * 10 + (Bytes.code c - Bytes.code "0") in
          if 2 ^ 63 <? y then leadingFraction x scale true s'
          else leadingFraction y
                 (PrimFloat.mul scale (float_of_uint64 10)) false s'
      else (x, scale, s)
  end.

(** The length of the unit at the start of [s]: the bytes before the
    next digit or period. *)
Fixpoint unit_length (s : string) : Z :=
  match s with
  | EmptyString => 0
  | String c s' =>
      if Bytes.eqb c "." || Bytes.is_digit c then 0 else 1 + unit_length s'
  end.

Definition micro_sign : string :=
  String (Bytes.of_code 194) (String (Bytes.of_code 181) "s").

Definition greek_mu : string :=
  String (Bytes.of_code 206) (String (Bytes.of_code 188) "s").

Definition unitMap (u : string) : option Z :=
  if String.eqb u "ns" then Some Nanosecond
  else if String.eqb u "us" then Some Microsecond
  else if String.eqb u micro_sign then Some Microsecond
  else if String.eqb u greek_mu then Some Microsecond
  else if String.eqb u "ms" then Some Millisecond
  else if String.eqb u "s" then Some Second
  else if String.eqb u "m" then Some Minute
  else if String.eqb u "h" then Some Hour
  else None.

(** One number with its unit, read off the start of [s]: its value in
    nanoseconds and the rest of [s]. *)
Definition term (orig s : string) : Z * string + error :=
  match s with
  | EmptyString => inr (invalid_duration orig)
  | String c _ =>
      if negb (Bytes.eqb c "." || Bytes.is_digit c)
      then inr (invalid_duration orig)
      else
        match leadingInt 0 s with
        | None => inr (invalid_duration orig)
        | Some (v, s1) =>
            let pre := negb (Strings.len s =? Strings.len s1) in
            let '(f, scale, s2, post) :=
              match s1 with
              | String d s1' =>
                  if Bytes.eqb d "." then
                    let '(f, scale, s2) :=
                      leadingFraction 0 (float_of_uint64 1) false s1' in
                    (f, scale, s2,
                     negb (Strings.len s1' =? Strings.len s2))
                  else (0, float_of_uint64 1, s1, false)
              | EmptyString => (0, float_of_uint64 1, s1, false)
              end in
            if negb pre && negb post then inr (invalid_duration orig)
            else
              let i := unit_length s2 in
              if i =? 0 then inr (missing_unit orig)
              else
                let u := Strings.slice s2 0 i in
                let s3 := Strings.slice_from s2 i in
                match unitMap u with
                | None => inr (unknown_unit u orig)
                | Some unit =>
                    if 2 ^ 63 / unit <? v then inr (invalid_duration orig)
                    else
                      let v := v * unit in
                      let v :=
                        if 0 <? f then
                          v + uint64_of_float
                                (PrimFloat.mul (float_of_uint64 f)
                                   (PrimFloat.div (float_of_uint64 unit) scale))
                        else v in
                      if 2 ^ 63 <? v then inr (invalid_duration orig)
                      else inl (v, s3)
                end
        end
  end.

(** The loop of [ParseDuration] over the terms of [s], with the running
    total [d]; every term takes at least one byte, so the length of [s]
    bounds the number of rounds. *)
Fixpoint terms (rounds : nat) (orig : string) (d : Z) (s : string)
  : Z + error :=
  match s, rounds with
  | EmptyString, _ => inl d
  | _, O => inl d
  | _, S rounds =>
      let* (v, rest) := term orig s in
      let d := (d + v) mod 2 ^ 64 in
      if 2 ^ 63 <? d then inr (invalid_duration orig)
      else terms rounds orig d rest
  end.

(** [time.ParseDuration(s)] *)
Definition ParseDuration (s : string) : Z + error :=
  let orig := s in
  let '(neg, s) :=
    match s with
    | String c s' =>
        if Bytes.eqb c "-" then (true, s')
        else if Bytes.eqb c "+" then (false, s')
        else (false, s)
    | EmptyString => (false, s)
    end in
  if String.eqb s "0" then inl 0
  else if Strings.is_empty s then inr (invalid_duration orig)
  else
    let* d := terms (String.length s) orig 0 s in
    if neg then inl (- d)
    else if 2 ^ 63 - 1 <? d then inr (invalid_duration orig)
    else inl d.

End Time.

(** ** Further concrete inputs *)

Module Cases.
Import proxy.

(** The proxy after its transport has been configured for HTTP/2. *)
Definition upgraded_proxy : Proxy :=
  {| Host := Scenario.upstream_url;
     Client :=
       {| Client.Timeout := Second * 5;
          Client.Transport :=
            {| Transport.DialTimeout := Second;
               Transport.TLSHandshakeTimeout := Second;
               Transport.ResponseHeaderTimeout := Second;
               Transport.InsecureSkipVerify := true;
               Transport.NextProtos := ["h2"; "http/1.1"];
               Transport.altProto := {["https"]} |} |} |}.

(** A response whose [Etag] header comes with an empty value list and
    whose trailer shares its name with a header. *)
Definition odd_headers : Response.t :=
  {| Response.StatusCode := 200;
     Response.Header := {[ "Etag" := []; "X-Sum" := ["pending"] ]};
     Response.Body := ["a"; "b"; "c"];
     Response.Trailer := {[ "X-Sum" := [] ]};
     Response.BodyErr := None;
     Response.TrailerAtEOF := {[ "X-Sum" := ["0"; "6"] ]} |}.

(** A response whose body breaks off: after one chunk the read fails
    because the total timeout of the client has expired. *)
Definition cut_short : Response.t :=
  {| Response.StatusCode := 200;
     Response.Header := {[ "Content-Type" := ["text/plain"] ]};
     Response.Body := ["partial"];
     Response.BodyErr :=
       Some "context deadline exceeded (Client.Timeout or context cancellation while reading body)";
     Response.Trailer := ∅;
     Response.TrailerAtEOF := ∅ |}.

(** A byte that [url.Parse] takes as part of a path without further
    ado: no control byte and none of [#], [?], [:], [%]. *)
Definition plain_path_byte (c : ascii) : bool :=
  negb ((Bytes.code c <? 32) || (Bytes.code c =? 127))
  && negb (Bytes.mem c "#?:%").

(** A string of such bytes that does not begin with two slashes. *)
Definition plain_path (s : string) : bool :=
  forallb plain_path_byte (list_ascii_of_string s)
  && negb (Strings.HasPrefix s "//").

(** A writer on which a header was set before the handler ran. *)
Definition prepared_writer : ResponseWriter.t :=
  ResponseWriter.Header_Set "Server" "edge" ResponseWriter.new.

Definition environment : gmap string string :=
  {[ "HOST" := "0.0.0.0:8080"; "WRITE_TIMEOUT" := "30s";
     "SHUTDOWN_TIMEOUT" := "" ]}.

End Cases.

(** * Properties *)

Local Open Scope list_scope.

(** ** Strings *)

Lemma append_cons (c : ascii) (s1 s2 : string) :
  String c s1 +:+ s2 = String c (s1 +:+ s2).
Proof. reflexivity. Qed.

Lemma append_nil_r (s : string) : s +:+ "" = s.
Proof. induction s as [|c s IH]; [done | by rewrite append_cons, IH]. Qed.

Lemma append_assoc (s1 s2 s3 : string) :
  (s1 +:+ s2) +:+ s3 = s1 +:+ (s2 +:+ s3).
Proof.
  induction s1 as [|c s1 IH]; [done | by rewrite !append_cons, IH].
Qed.

(** [strings.Join] is the concatenation with separator of the standard
    library. *)
Lemma Join_concat (elems : list string) (sep : string) :
  Strings.Join elems sep = String.concat sep elems.
Proof.
  induction elems as [|e elems IH]; [done|].
  destruct elems as [|e' elems]; [done|].
  change (Strings.Join (e :: e' :: elems) sep)
    with (e +:+ sep +:+ Strings.Join (e' :: elems) sep).
  by rewrite IH.
Qed.

(** ** Splitting addresses *)

Section split_facts.

Lemma eqb_refl_byte c : Bytes.eqb c c = true.
Proof. apply Ascii.eqb_refl. Qed.

Lemma eqb_sym_byte c d : Bytes.eqb c d = Bytes.eqb d c.
Proof. apply Ascii.eqb_sym. Qed.

Lemma len_nonneg s : 0 ≤ Strings.len s.
Proof. unfold Strings.len. lia. Qed.

Lemma len_cons c s : Strings.len (String c s) = Strings.len s + 1.
Proof. unfold Strings.len. simpl. lia. Qed.

Lemma len_append s1 s2 :
  Strings.len (s1 +:+ s2) = Strings.len s1 + Strings.len s2.
Proof.
  induction s1 as [|c s1 IH]; [done|].
  rewrite append_cons, !len_cons, IH. lia.
Qed.

Lemma mem_append c s1 s2 :
  Bytes.mem c (s1 +:+ s2) = Bytes.mem c s1 || Bytes.mem c s2.
Proof.
  induction s1 as [|d s1 IH]; [done|].
  rewrite append_cons. simpl. by rewrite IH, orb_assoc.
Qed.

Lemma IndexByte_from_absent i s c :
  Bytes.mem c s = false → Strings.IndexByte_from i s c = -1.
Proof.
  revert i. induction s as [|d s IH]; intros i Hmem; [done|].
  simpl in *. apply orb_false_iff in Hmem as [Hd Hs].
  rewrite eqb_sym_byte, Hd. by apply IH.
Qed.

Lemma LastIndexByte_from_absent i s c :
  Bytes.mem c s = false → Strings.LastIndexByte_from i s c = -1.
Proof.
  revert i. induction s as [|d s IH]; intros i Hmem; [done|].
  simpl in *. apply orb_false_iff in Hmem as [Hd Hs].
  rewrite IH by done. simpl. by rewrite eqb_sym_byte, Hd.
Qed.

(** The last occurrence of a byte that does not occur after position
    [len s1]. *)
Lemma LastIndexByte_from_append i s1 c s2 :
  0 ≤ i →
  Bytes.mem c s2 = false →
  Strings.LastIndexByte_from i (s1 +:+ String c s2) c = i + Strings.len s1.
Proof.
  revert i. induction s1 as [|d s1 IH]; intros i Hi Hmem.
  - simpl. rewrite LastIndexByte_from_absent by done. simpl.
    rewrite eqb_refl_byte. unfold Strings.len. simpl. lia.
  - rewrite append_cons. simpl. rewrite IH by (done || lia).
    rewrite len_cons.
    pose proof (len_nonneg s1).
    destruct (0 <=? i + 1 + Strings.len s1) eqn:Hle; [lia|].
    apply Z.leb_gt in Hle. lia.
Qed.

Lemma substring_prefix s1 s2 :
  String.substring 0 (String.length s1) (s1 +:+ s2) = s1.
Proof.
  induction s1 as [|c s1 IH]; simpl.
  - by destruct s2.
  - by rewrite IH.
Qed.

Lemma substring_all s : String.substring 0 (String.length s) s = s.
Proof. induction s as [|c s IH]; simpl; [done | by rewrite IH]. Qed.

Lemma substring_suffix s1 s2 :
  String.substring (String.length s1) (String.length s2) (s1 +:+ s2) = s2.
Proof.
  induction s1 as [|c s1 IH]; simpl; [apply substring_all | done].
Qed.

Lemma slice_prefix s1 s2 : Strings.slice (s1 +:+ s2) 0 (Strings.len s1) = s1.
Proof.
  unfold Strings.slice, Strings.len.
  rewrite Z.sub_0_r, Nat2Z.id. apply substring_prefix.
Qed.

Lemma slice_from_0 s : Strings.slice_from s 0 = s.
Proof.
  unfold Strings.slice_from, Strings.slice, Strings.len.
  rewrite Z.sub_0_r, Nat2Z.id. apply substring_all.
Qed.

Lemma slice_from_suffix s1 s2 :
  Strings.slice_from (s1 +:+ s2) (Strings.len s1) = s2.
Proof.
  unfold Strings.slice_from, Strings.slice.
  rewrite len_append. unfold Strings.len.
  replace (Z.of_nat (String.length s1) + Z.of_nat (String.length s2)
           - Z.of_nat (String.length s1))
    with (Z.of_nat (String.length s2)) by lia.
  rewrite !Nat2Z.id. apply substring_suffix.
Qed.

Lemma byte_is_first_absent s1 c d s2 :
  Bytes.mem c s1 = false → Bytes.eqb d c = false →
  Net.byte_is (s1 +:+ String d s2) 0 c = false.
Proof.
  intros Hmem Hd. unfold Net.byte_is, Strings.at_. simpl.
  destruct s1 as [|e s1]; simpl; [done|].
  simpl in Hmem. apply orb_false_iff in Hmem as [He _].
  by rewrite eqb_sym_byte.
Qed.

(** An address made of a host, a colon and a port splits back into the
    two, provided neither holds a colon or a bracket. *)
Lemma SplitHostPort_host_port host port :
  Bytes.mem ":" host = false →
  Bytes.mem "[" host = false →
  Bytes.mem "]" host = false →
  Bytes.mem ":" port = false →
  Bytes.mem "[" port = false →
  Bytes.mem "]" port = false →
  Net.SplitHostPort (host +:+ ":" +:+ port) = inl (host, port).
Proof.
  intros Hc Hl Hr Hpc Hpl Hpr.
  change (host +:+ ":" +:+ port) with (host +:+ String ":" port).
  unfold Net.SplitHostPort, Strings.LastIndexByte.
  rewrite LastIndexByte_from_append by done. rewrite Z.add_0_l.
  pose proof (len_nonneg host) as Hlen.
  destruct (Strings.len host <? 0) eqn:Hneg; [apply Z.ltb_lt in Hneg; lia|].
  unfold Net.split_host.
  rewrite byte_is_first_absent by done.
  rewrite slice_prefix. unfold Strings.IndexByte.
  rewrite (IndexByte_from_absent 0 host) by done. simpl.
  rewrite slice_from_0.
  rewrite !IndexByte_from_absent
    by (rewrite mem_append; simpl; by rewrite ?Hl, ?Hr, ?Hpl, ?Hpr).
  simpl.
  do 2 f_equal.
  change (host +:+ String ":" port) with (host +:+ (":" +:+ port)).
  rewrite <- append_assoc.
  replace (Strings.len host + 1) with (Strings.len (host +:+ ":"))
    by (rewrite len_append; done).
  apply slice_from_suffix.
Qed.

End split_facts.

(** ** The response writer *)

Section writer_facts.
Import ResponseWriter.

Lemma calls_Copy chunks w :
  calls (Copy chunks w) = calls w ++ (CallWrite <$> chunks).
Proof.
  revert w. induction chunks as [|chunk chunks IH]; intros w; simpl.
  - by rewrite app_nil_r.
  - rewrite IH. simpl. by rewrite <- app_assoc.
Qed.

Lemma header_Copy chunks w : header (Copy chunks w) = header w.
Proof. revert w. induction chunks as [|? ? IH]; intros w; [done|]. simpl. by rewrite IH. Qed.

Lemma wrote_Copy chunks w done_ :
  wrote w = Some done_ → wrote (Copy chunks w) = Some done_.
Proof.
  revert w. induction chunks as [|? ? IH]; intros w Hw; [done|].
  simpl. apply IH. simpl. unfold commit. by rewrite Hw.
Qed.

Lemma body_Copy chunks w :
  body (Copy chunks w) = body w +:+ foldr String.append "" chunks.
Proof.
  revert w. induction chunks as [|chunk chunks IH]; intros w; simpl.
  - symmetry. apply append_nil_r.
  - rewrite IH. simpl. apply append_assoc.
Qed.

End writer_facts.

Section copy_facts.
Import ResponseWriter proxy.

Lemma set_each_snoc key vs v w :
  set_each key (vs ++ [v]) w = Header_Set key v (set_each key vs w).
Proof. unfold set_each. by rewrite foldl_snoc. Qed.

Lemma copy_entries_snoc es e w :
  copy_entries (es ++ [e]) w = set_each e.1 e.2 (copy_entries es w).
Proof. unfold copy_entries. by rewrite foldl_snoc. Qed.

Lemma calls_set_each key vs w :
  calls (set_each key vs w) = calls w ++ (HeaderSet key <$> vs).
Proof.
  induction vs as [|v vs IH] using rev_ind.
  - by rewrite app_nil_r.
  - rewrite set_each_snoc, fmap_app. simpl. rewrite IH. by rewrite <- app_assoc.
Qed.

Lemma calls_copy_entries es w :
  calls (copy_entries es w) = calls w ++ set_calls es.
Proof.
  induction es as [|e es IH] using rev_ind.
  - by rewrite app_nil_r.
  - rewrite copy_entries_snoc, calls_set_each, IH.
    unfold set_calls. rewrite flat_map_app. simpl.
    by rewrite app_nil_r, <- app_assoc.
Qed.

Lemma wrote_set_each key vs w : wrote (set_each key vs w) = wrote w.
Proof.
  induction vs as [|v vs IH] using rev_ind; [done|].
  by rewrite set_each_snoc.
Qed.

Lemma wrote_copy_entries es w : wrote (copy_entries es w) = wrote w.
Proof.
  induction es as [|e es IH] using rev_ind; [done|].
  by rewrite copy_entries_snoc, wrote_set_each.
Qed.

Lemma body_set_each key vs w : body (set_each key vs w) = body w.
Proof.
  induction vs as [|v vs IH] using rev_ind; [done|].
  by rewrite set_each_snoc.
Qed.

Lemma body_copy_entries es w : body (copy_entries es w) = body w.
Proof.
  induction es as [|e es IH] using rev_ind; [done|].
  by rewrite copy_entries_snoc, body_set_each.
Qed.

(** After the inner loop the key holds the last value, if there was one. *)
Lemma header_set_each key vs w :
  header (set_each key vs w) =
    match last vs with
    | Some v => <[Textproto.CanonicalMIMEHeaderKey key := [v]]> (header w)
    | None => header w
    end.
Proof.
  induction vs as [|v vs IH] using rev_ind; [done|].
  rewrite set_each_snoc, last_snoc. simpl. unfold HeaderOps.Set_.
  rewrite IH. destruct (last vs); [by rewrite insert_insert_eq | done].
Qed.

Lemma lookup_set_each_ne key vs w k :
  Textproto.CanonicalMIMEHeaderKey key ≠ k →
  header (set_each key vs w) !! k = header w !! k.
Proof.
  intros Hne. rewrite header_set_each.
  destruct (last vs); [by rewrite lookup_insert_ne | done].
Qed.

Lemma collect_keys_fst es : collect_keys es = es.*1.
Proof.
  unfold collect_keys.
  induction es as [|e es IH] using rev_ind; [done|].
  by rewrite foldl_snoc, fmap_app, IH.
Qed.

(** The outer loop: a key whose canonical form no other visited key shares
    ends up with the last of its values. *)
Lemma lookup_copy_entries es w k vs v :
  (k, vs) ∈ es →
  last vs = Some v →
  (∀ e, e ∈ es →
        Textproto.CanonicalMIMEHeaderKey e.1 = Textproto.CanonicalMIMEHeaderKey k →
        e = (k, vs)) →
  header (copy_entries es w) !! Textproto.CanonicalMIMEHeaderKey k = Some [v].
Proof.
  intros Hin Hlast.
  induction es as [|e es IH] using rev_ind; intros Hsole.
  - by apply elem_of_nil in Hin.
  - rewrite copy_entries_snoc.
    destruct (decide (Textproto.CanonicalMIMEHeaderKey e.1
                      = Textproto.CanonicalMIMEHeaderKey k)) as [Heq|Hne].
    + assert (e = (k, vs)) as ->.
      { apply Hsole; [|done]. apply elem_of_app. right. by apply list_elem_of_singleton. }
      simpl. rewrite header_set_each, Hlast. apply lookup_insert_eq.
    + rewrite lookup_set_each_ne by done.
      apply IH.
      * apply elem_of_app in Hin as [Hin|Hin]; [done|].
        apply list_elem_of_singleton in Hin. subst e. by destruct Hne.
      * intros e' He'. apply Hsole. apply elem_of_app. by left.
Qed.

Lemma canonical_keys_sole (h : gmap string (list string)) e e' :
  canonical_keys h →
  e ∈ map_to_list h → e' ∈ map_to_list h →
  Textproto.CanonicalMIMEHeaderKey e.1 = Textproto.CanonicalMIMEHeaderKey e'.1 →
  e = e'.
Proof.
  intros Hcanon He He' Hsame. destruct e as [k vs], e' as [k' vs'].
  apply elem_of_map_to_list in He, He'. simpl in Hsame.
  rewrite (Hcanon k), (Hcanon k') in Hsame by (by eexists).
  subst k'. congruence.
Qed.

End copy_facts.

(** ** The handler, case by case *)

Section handler_facts.
Import ResponseWriter proxy.

Context (net : Network) (rg : Ranges) (p : Proxy) (w : ResponseWriter.t)
        (r : Request.t).

(** Splits a goal about [ServeHTTP] along the handler's exits. *)
Ltac serve_cases :=
  unfold ServeHTTP; simpl;
  destruct (Net.SplitHostPort (Request.RemoteAddr r)) as [[? ?]|?]; simpl;
  [ destruct (Request.ProtoMajor r =? 2); simpl;
    [ destruct (Http2.ConfigureTransport _); simpl |];
    try destruct (net _ _); simpl
  | ].

Lemma sent_at_most_once : (length (sent (ServeHTTP net rg p w r)) ≤ 1)%nat.
Proof. serve_cases; lia. Qed.

Lemma sent_is_r_out q res :
  (q, res) ∈ sent (ServeHTTP net rg p w r) →
  q = r_out (ServeHTTP net rg p w r)
  ∧ sent (ServeHTTP net rg p w r) = [(q, res)].
Proof.
  serve_cases; intros Hin;
    try (by apply elem_of_nil in Hin);
    apply list_elem_of_singleton in Hin; by inversion Hin.
Qed.

Lemma sent_relay q resp :
  (q, inl resp) ∈ sent (ServeHTTP net rg p w r) →
  w_out (ServeHTTP net rg p w r) = relay rg resp w.
Proof.
  serve_cases; intros Hin;
    try (by apply elem_of_nil in Hin);
    apply list_elem_of_singleton in Hin; by inversion Hin.
Qed.

Lemma sent_error q err :
  (q, inr err) ∈ sent (ServeHTTP net rg p w r) →
  w_out (ServeHTTP net rg p w r) = internal_error err w.
Proof.
  serve_cases; intros Hin;
    try (by apply elem_of_nil in Hin);
    apply list_elem_of_singleton in Hin; by inversion Hin.
Qed.

Lemma split_error err :
  Net.SplitHostPort (Request.RemoteAddr r) = inr err →
  ServeHTTP net rg p w r =
    {| w_out := internal_error err w; r_out := forwarding p r; p_out := p;
       sent := [] |}.
Proof. unfold ServeHTTP. simpl. by intros ->. Qed.

(** The proxy a call leaves behind does not depend on the network, on the
    visiting orders or on the writer. *)
Lemma p_out_network net' rg' w' :
  p_out (ServeHTTP net' rg' p w' r) = p_out (ServeHTTP net rg p w r).
Proof.
  unfold ServeHTTP; simpl.
  destruct (Net.SplitHostPort (Request.RemoteAddr r)) as [[? ?]|?]; simpl;
    [|done].
  destruct (Request.ProtoMajor r =? 2); simpl;
    [destruct (Http2.ConfigureTransport _); simpl; [|done] |];
    by destruct (net _ _), (net' _ _).
Qed.

Lemma Host_p_out : Host (p_out (ServeHTTP net rg p w r)) = Host p.
Proof. by serve_cases. Qed.

Lemma p_out_http1 :
  Request.ProtoMajor r ≠ 2 → p_out (ServeHTTP net rg p w r) = p.
Proof.
  intros Hv. apply Z.eqb_neq in Hv.
  unfold ServeHTTP; simpl. rewrite Hv.
  destruct (Net.SplitHostPort (Request.RemoteAddr r)) as [[? ?]|?]; simpl;
    [|done].
  by destruct (net _ _), p as [? []].
Qed.

Lemma r_out_split ip port :
  Net.SplitHostPort (Request.RemoteAddr r) = inl (ip, port) →
  r_out (ServeHTTP net rg p w r) =
    Request.set_Header (forwarding p r)
      (HeaderOps.Set_ "X-Forwarded-For" ip (Request.Header r)).
Proof.
  intros Hsplit. unfold ServeHTTP; simpl. rewrite Hsplit. simpl.
  destruct (Request.ProtoMajor r =? 2); simpl;
    [destruct (Http2.ConfigureTransport _); simpl; [|done] |];
    by destruct (net _ _).
Qed.

Lemma sent_split q res :
  (q, res) ∈ sent (ServeHTTP net rg p w r) →
  ∃ ip port, Net.SplitHostPort (Request.RemoteAddr r) = inl (ip, port).
Proof.
  unfold ServeHTTP; simpl.
  destruct (Net.SplitHostPort (Request.RemoteAddr r)) as [[ip port]|?]; simpl.
  - eauto.
  - intros Hin. by apply elem_of_nil in Hin.
Qed.

End handler_facts.

Section relay_facts.
Import ResponseWriter proxy.

Lemma calls_internal_error err w :
  calls (internal_error err w) =
    calls w ++ [CallWriteHeader StatusInternalServerError;
                CallWrite (err +:+ newline)].
Proof. simpl. by rewrite <- app_assoc. Qed.

Lemma relayed_internal_error err w :
  wrote w = None →
  relayed (internal_error err w) =
    Some {| status := StatusInternalServerError; headers := header w;
            content := body w +:+ err +:+ newline |}.
Proof.
  intros Hw. unfold relayed, internal_error, Fprintln, Write, WriteHeader, commit.
  simpl. by rewrite Hw.
Qed.

Lemma calls_relay rg resp w :
  calls (relay rg resp w) =
    calls w
    ++ set_calls (range_header rg (Response.Header resp))
    ++ [HeaderSet "Trailer"
          (Strings.Join (range_trailer_keys rg (Response.Trailer resp)).*1 ",")]
    ++ [CallWriteHeader (Response.StatusCode resp)]
    ++ (CallWrite <$> Response.Body resp)
    ++ set_calls (range_trailer_values rg (Response.TrailerAtEOF resp)).
Proof.
  unfold relay. rewrite calls_copy_entries, calls_Copy. simpl.
  rewrite calls_copy_entries, collect_keys_fst.
  by rewrite <- !app_assoc.
Qed.

(** The status line and the headers frozen with it. *)
Lemma wrote_relay rg resp w :
  wrote w = None →
  wrote (relay rg resp w) =
    Some (Response.StatusCode resp,
          <["Trailer" :=
              [Strings.Join (range_trailer_keys rg (Response.Trailer resp)).*1 ","]]>
            (header (copy_entries (range_header rg (Response.Header resp)) w))).
Proof.
  intros Hw. unfold relay. rewrite wrote_copy_entries.
  erewrite wrote_Copy; [done|].
  simpl. unfold commit. simpl.
  by rewrite wrote_copy_entries, Hw, collect_keys_fst.
Qed.

Lemma body_relay rg resp w :
  body (relay rg resp w) = body w +:+ foldr String.append "" (Response.Body resp).
Proof.
  unfold relay. rewrite body_copy_entries, body_Copy. simpl.
  by rewrite body_copy_entries.
Qed.

End relay_facts.

(** ** Relaying the upstream response *)

Section relay_claims.
Import ResponseWriter proxy.

(** C2 — Whenever the client call returned a response, the calls the
    handler makes on the response writer are, in this order: the header
    copy, the [Trailer] announcement, the status code, the body chunks,
    the trailer values. *)
Theorem relay_call_order net rg p w r q resp :
  (q, inl resp) ∈ sent (ServeHTTP net rg p w r) →
  calls (w_out (ServeHTTP net rg p w r)) =
    calls w
    ++ set_calls (range_header rg (Response.Header resp))
    ++ [HeaderSet "Trailer"
          (Strings.Join (range_trailer_keys rg (Response.Trailer resp)).*1 ",")]
    ++ [CallWriteHeader (Response.StatusCode resp)]
    ++ (CallWrite <$> Response.Body resp)
    ++ set_calls (range_trailer_values rg (Response.TrailerAtEOF resp)).
Proof.
  intros Hsent. rewrite (sent_relay _ _ _ _ _ _ _ Hsent). apply calls_relay.
Qed.

Lemma relay_call_order_witness :
  calls (w_out (ServeHTTP (Scenario.always Scenario.created) Scenario.in_order
                  Scenario.fresh_proxy ResponseWriter.new
                  (Scenario.request 1 "192.0.2.1:1234"))) =
    [HeaderSet "Response-Header-1" "1"; HeaderSet "X" "1"; HeaderSet "X" "2";
     HeaderSet "Trailer" "X-Trailer";
     CallWriteHeader 201;
     CallWrite "Hello "; CallWrite "World!";
     HeaderSet "X-Trailer" "X-Value"].
Proof.
  rewrite (relay_call_order _ _ _ _ _
             (r_out (ServeHTTP (Scenario.always Scenario.created)
                       Scenario.in_order Scenario.fresh_proxy ResponseWriter.new
                       (Scenario.request 1 "192.0.2.1:1234")))
             Scenario.created).
  - vm_compute. reflexivity.
  - vm_compute. left.
Defined.

(** C4 — Whenever the client call returned a response, the relayed
    response carries a [Trailer] header whose value is the names of all
    declared trailers, in the order the loop visited them, with a comma
    between each two; the header is set by the call just before the status
    code is written, and with no declared trailer its value is the empty
    string. *)
Theorem trailer_announcement net rg p w r q resp :
  fair rg →
  wrote w = None →
  (q, inl resp) ∈ sent (ServeHTTP net rg p w r) →
  ∃ names rel before after,
    names = (range_trailer_keys rg (Response.Trailer resp)).*1
    ∧ names ≡ₚ (map_to_list (Response.Trailer resp)).*1
    ∧ relayed (w_out (ServeHTTP net rg p w r)) = Some rel
    ∧ status rel = Response.StatusCode resp
    ∧ headers rel !! "Trailer" = Some [String.concat "," names]
    ∧ calls (w_out (ServeHTTP net rg p w r)) =
        before
        ++ [HeaderSet "Trailer" (String.concat "," names);
            CallWriteHeader (Response.StatusCode resp)]
        ++ after
    ∧ (Response.Trailer resp = ∅ → names = []
       ∧ headers rel !! "Trailer" = Some [""]).
Proof.
  intros (_ & Hkeys & _) Hw Hsent.
  rewrite (sent_relay _ _ _ _ _ _ _ Hsent).
  set (names := (range_trailer_keys rg (Response.Trailer resp)).*1).
  assert (names ≡ₚ (map_to_list (Response.Trailer resp)).*1) as Hperm
    by (unfold names; by rewrite (Hkeys _)).
  eexists names, _, _, _. split; [done|]. split; [done|].
  unfold relayed. rewrite wrote_relay by done. fold names.
  rewrite Join_concat.
  split; [done|]. split; [done|]. simpl.
  split; [by rewrite lookup_insert_eq|].
  split.
  - rewrite calls_relay. fold names. rewrite Join_concat.
    rewrite (app_assoc (calls w)). reflexivity.
  - intros Hempty. rewrite Hempty, map_to_list_empty in Hperm.
    apply Permutation_nil_r in Hperm. rewrite lookup_insert_eq.
    by rewrite Hperm.
Qed.

Lemma trailer_announcement_witness :
  ∃ rel,
    relayed (w_out (ServeHTTP (Scenario.always Scenario.two_trailers)
                      Scenario.in_order Scenario.fresh_proxy
                      ResponseWriter.new
                      (Scenario.request 1 "192.0.2.1:1234"))) = Some rel
    ∧ status rel = 200
    ∧ headers rel !! "Trailer" = Some ["X-Checksum,X-Length"].
Proof.
  destruct (trailer_announcement (Scenario.always Scenario.two_trailers)
              Scenario.in_order Scenario.fresh_proxy ResponseWriter.new
              (Scenario.request 1 "192.0.2.1:1234")
              (r_out (ServeHTTP (Scenario.always Scenario.two_trailers)
                        Scenario.in_order Scenario.fresh_proxy
                        ResponseWriter.new
                        (Scenario.request 1 "192.0.2.1:1234")))
              Scenario.two_trailers)
    as (names & rel & before & after & Hnames & _ & Hrel & Hstatus
        & Hheader & _).
  - repeat split; intros m; reflexivity.
  - reflexivity.
  - vm_compute. left.
  - exists rel. split; [exact Hrel|]. split; [exact Hstatus|].
    rewrite Hheader, Hnames. reflexivity.
Defined.

(** Without declared trailers the header is announced all the same, with
    the empty string as its value. *)
Example empty_announcement :
  (headers <$> relayed (w_out (ServeHTTP
                                 (Scenario.always Scenario.created_no_trailer)
                                 Scenario.reversed Scenario.fresh_proxy
                                 ResponseWriter.new
                                 (Scenario.request 1 "192.0.2.1:1234"))))
    ≫= (.!! "Trailer")
  = Some [""].
Proof. vm_compute. reflexivity. Qed.

(** C3, as stated, fails on the [Trailer] key: a [Trailer] header of
    the upstream response is replaced by the announcement. *)
Lemma upstream_trailer_header_overwritten :
  ∃ rel,
    relayed (w_out (ServeHTTP (Scenario.always Scenario.trailer_header_kept)
                      Scenario.in_order Scenario.fresh_proxy ResponseWriter.new
                      (Scenario.request 1 "192.0.2.1:1234"))) = Some rel
    ∧ Response.Header Scenario.trailer_header_kept !! "Trailer"
      = Some ["X-Trailer"]
    ∧ last ["X-Trailer"] = Some "X-Trailer"
    ∧ headers rel !! "Trailer" = Some [""]
    ∧ headers rel !! "Trailer" ≠ Some ["X-Trailer"].
Proof.
  eexists. split; [vm_compute; reflexivity|].
  repeat split; try (vm_compute; reflexivity).
  vm_compute. discriminate.
Qed.

(** C3 — Whenever the client call returned a response, every header
    key of that response whose canonical form is not [Trailer], and is
    shared with no other key of the response, is present on the relayed
    response, under its canonical form, and holds exactly the last of the
    key's upstream values. *)
Theorem header_copy_last_value net rg p w r q resp k vs v :
  fair rg →
  wrote w = None →
  (q, inl resp) ∈ sent (ServeHTTP net rg p w r) →
  Response.Header resp !! k = Some vs →
  last vs = Some v →
  (∀ k', is_Some (Response.Header resp !! k') →
         Textproto.CanonicalMIMEHeaderKey k' = Textproto.CanonicalMIMEHeaderKey k →
         k' = k) →
  Textproto.CanonicalMIMEHeaderKey k ≠ "Trailer" →
  ∃ rel,
    relayed (w_out (ServeHTTP net rg p w r)) = Some rel
    ∧ status rel = Response.StatusCode resp
    ∧ headers rel !! Textproto.CanonicalMIMEHeaderKey k = Some [v]
    ∧ HeaderOps.Get k (headers rel) = v.
Proof.
  intros (Hvisit & _ & _) Hw Hsent Hk Hlast Hsole Hne.
  rewrite (sent_relay _ _ _ _ _ _ _ Hsent).
  unfold relayed. rewrite wrote_relay by done.
  eexists. split; [done|]. split; [done|]. simpl.
  assert (∀ h : gmap string (list string),
            h !! Textproto.CanonicalMIMEHeaderKey k = Some [v] →
            h !! Textproto.CanonicalMIMEHeaderKey k = Some [v]
            ∧ HeaderOps.Get k h = v) as Hget.
  { intros h Hh. split; [done|]. unfold HeaderOps.Get. by rewrite Hh. }
  apply Hget.
  rewrite lookup_insert_ne by done.
  apply (lookup_copy_entries _ _ _ vs); [|done|].
  - rewrite (Hvisit _). by apply elem_of_map_to_list.
  - intros [k' vs'] He Hsame. simpl in Hsame.
    rewrite (Hvisit _) in He. apply elem_of_map_to_list in He.
    assert (k' = k) as -> by (apply Hsole; [by eexists | done]).
    congruence.
Qed.

Lemma header_copy_last_value_witness :
  ∃ rel,
    relayed (w_out (ServeHTTP (Scenario.always Scenario.created)
                      Scenario.reversed Scenario.fresh_proxy ResponseWriter.new
                      (Scenario.request 1 "192.0.2.1:1234"))) = Some rel
    ∧ status rel = 201
    ∧ headers rel !! "X" = Some ["2"]
    ∧ HeaderOps.Get "X" (headers rel) = "2".
Proof.
  apply (header_copy_last_value _ _ _ _ _
           (r_out (ServeHTTP (Scenario.always Scenario.created)
                     Scenario.reversed Scenario.fresh_proxy ResponseWriter.new
                     (Scenario.request 1 "192.0.2.1:1234")))
           Scenario.created "X" ["1"; "2"] "2").
  - repeat split; intros m; simpl; apply reverse_Permutation.
  - reflexivity.
  - vm_compute. left.
  - reflexivity.
  - reflexivity.
  - intros k' [vs' Hk'] Hsame. simpl in Hk'.
    apply lookup_insert_Some in Hk' as [[<- _]|[_ Hk']].
    + vm_compute in Hsame. discriminate.
    + by apply lookup_singleton_Some in Hk' as [<- _].
  - vm_compute. discriminate.
Defined.

(** When the header keys are in canonical form, as the client delivers
    them, no two keys share a canonical form. *)
Lemma header_copy_canonical net rg p w r q resp k vs v :
  fair rg →
  wrote w = None →
  (q, inl resp) ∈ sent (ServeHTTP net rg p w r) →
  canonical_keys (Response.Header resp) →
  Response.Header resp !! k = Some vs →
  last vs = Some v →
  k ≠ "Trailer" →
  (headers <$> relayed (w_out (ServeHTTP net rg p w r))) ≫= (.!! k)
  = Some [v].
Proof.
  intros (Hvisit & _ & _) Hw Hsent Hcanon Hk Hlast Hne.
  rewrite (sent_relay _ _ _ _ _ _ _ Hsent).
  unfold relayed. rewrite wrote_relay by done. simpl.
  rewrite lookup_insert_ne by done.
  assert (Textproto.CanonicalMIMEHeaderKey k = k) as Hfix
    by (apply Hcanon; by rewrite Hk).
  rewrite <- Hfix.
  apply (lookup_copy_entries _ _ _ vs); [|done|].
  - rewrite (Hvisit _). by apply elem_of_map_to_list.
  - intros e He Hsame. rewrite (Hvisit _) in He.
    apply (canonical_keys_sole (Response.Header resp)); [done..| |done].
    by apply elem_of_map_to_list.
Qed.

(** Two keys with one canonical form: which of their values is relayed
    depends on the order in which the loop visits them. *)
Example colliding_keys_depend_on_order :
  (headers <$> relayed (relay Scenario.in_order Scenario.colliding_keys
                          ResponseWriter.new)) ≫= (.!! "X-A")
  ≠ (headers <$> relayed (relay Scenario.reversed Scenario.colliding_keys
                            ResponseWriter.new)) ≫= (.!! "X-A").
Proof. vm_compute. discriminate. Qed.

(** C1, as stated, fails: an HTTP/2 exchange gets the announcement
    before the status code and the trailer values after the body, like an
    HTTP/1.1 exchange. *)
Lemma http2_announce_then_fill :
  Request.ProtoMajor (Scenario.request 2 "192.0.2.1:1234") = 2
  ∧ calls (w_out (ServeHTTP (Scenario.always Scenario.created)
                    Scenario.in_order Scenario.fresh_proxy ResponseWriter.new
                    (Scenario.request 2 "192.0.2.1:1234"))) =
      [HeaderSet "Response-Header-1" "1"; HeaderSet "X" "1"; HeaderSet "X" "2";
       HeaderSet "Trailer" "X-Trailer";
       CallWriteHeader 201;
       CallWrite "Hello "; CallWrite "World!";
       HeaderSet "X-Trailer" "X-Value"]
  ∧ announces_trailers
      (calls (w_out (ServeHTTP (Scenario.always Scenario.created)
                       Scenario.in_order Scenario.fresh_proxy
                       ResponseWriter.new
                       (Scenario.request 2 "192.0.2.1:1234")))) = true.
Proof. repeat split; vm_compute; reflexivity. Qed.

(** C1 — Trailer relay does not look at the protocol version: for
    every request, HTTP/2 as well as HTTP/1.1, whose client call returned a
    response, the handler copies the headers, sets the [Trailer]
    announcement by the call just before it writes the status code, writes
    the body, and sets the trailer values after the body. *)
Theorem trailer_relay_ignores_protocol net rg p w r q resp :
  (q, inl resp) ∈ sent (ServeHTTP net rg p w r) →
  calls (w_out (ServeHTTP net rg p w r)) =
    calls w
    ++ set_calls (range_header rg (Response.Header resp))
    ++ [HeaderSet "Trailer"
          (String.concat ","
             (range_trailer_keys rg (Response.Trailer resp)).*1);
        CallWriteHeader (Response.StatusCode resp)]
    ++ (CallWrite <$> Response.Body resp)
    ++ set_calls (range_trailer_values rg (Response.TrailerAtEOF resp)).
Proof.
  intros Hsent. rewrite (sent_relay _ _ _ _ _ _ _ Hsent).
  rewrite calls_relay, Join_concat. reflexivity.
Qed.

Lemma trailer_relay_ignores_protocol_witness :
  Request.ProtoMajor (Scenario.request 2 "[2001:db8::1]:443") = 2
  ∧ calls (w_out (ServeHTTP (Scenario.always Scenario.two_trailers)
                    Scenario.reversed Scenario.fresh_proxy
                    ResponseWriter.new
                    (Scenario.request 2 "[2001:db8::1]:443"))) =
      [HeaderSet "Content-Type" "text/plain";
       HeaderSet "Trailer" "X-Length,X-Checksum";
       CallWriteHeader 200;
       CallWrite "ok";
       HeaderSet "X-Length" "2"; HeaderSet "X-Checksum" "9a0364b9"].
Proof.
  split; [reflexivity|].
  rewrite (trailer_relay_ignores_protocol _ _ _ _ _
             (r_out (ServeHTTP (Scenario.always Scenario.two_trailers)
                       Scenario.reversed Scenario.fresh_proxy
                       ResponseWriter.new
                       (Scenario.request 2 "[2001:db8::1]:443")))
             Scenario.two_trailers).
  - vm_compute. reflexivity.
  - vm_compute. left.
Defined.

End relay_claims.

(** ** Rewriting the request *)

Section request_claims.
Import ResponseWriter proxy.

(** C5 — For every inbound request, the rewritten request, which is
    the request of every client call, has the upstream's host (both as
    [Host] and in its URL) and scheme, and an empty [RequestURI]. *)
Theorem outbound_target net rg p w r :
  Request.Host (r_out (ServeHTTP net rg p w r)) = Url.Host (Host p)
  ∧ Url.Host (Request.URL (r_out (ServeHTTP net rg p w r))) = Url.Host (Host p)
  ∧ Url.Scheme (Request.URL (r_out (ServeHTTP net rg p w r)))
    = Url.Scheme (Host p)
  ∧ Request.RequestURI (r_out (ServeHTTP net rg p w r)) = ""
  ∧ Forall (fun call => call.1 = r_out (ServeHTTP net rg p w r))
           (sent (ServeHTTP net rg p w r)).
Proof.
  repeat split;
    try (unfold ServeHTTP; simpl;
         destruct (Net.SplitHostPort (Request.RemoteAddr r)) as [[? ?]|?];
         simpl; [|done];
         destruct (Request.ProtoMajor r =? 2); simpl;
         [destruct (Http2.ConfigureTransport _); simpl; [|done] |];
         by destruct (net _ _)).
  apply Forall_forall. intros [q res] Hin.
  by destruct (sent_is_r_out _ _ _ _ _ _ _ Hin).
Qed.

(** C6 — When the remote address splits into host and port, the
    rewritten request, which is the request of every client call, has
    exactly the host part as its forwarded-for header, whatever the header
    held before. *)
Theorem forwarded_for_overwritten net rg p w r ip port :
  Net.SplitHostPort (Request.RemoteAddr r) = inl (ip, port) →
  Request.Header (r_out (ServeHTTP net rg p w r)) !! "X-Forwarded-For"
  = Some [ip]
  ∧ HeaderOps.Get "X-Forwarded-For"
      (Request.Header (r_out (ServeHTTP net rg p w r))) = ip
  ∧ Forall (fun call => call.1 = r_out (ServeHTTP net rg p w r))
           (sent (ServeHTTP net rg p w r)).
Proof.
  intros Hsplit. rewrite (r_out_split _ _ _ _ _ _ _ Hsplit). simpl.
  assert (HeaderOps.Set_ "X-Forwarded-For" ip (Request.Header r)
            !! "X-Forwarded-For" = Some [ip]) as Hset
    by apply lookup_insert_eq.
  split; [done|]. split.
  - unfold HeaderOps.Get.
    change (Textproto.CanonicalMIMEHeaderKey "X-Forwarded-For")
      with "X-Forwarded-For".
    by rewrite Hset.
  - rewrite <- (r_out_split net rg p w r _ _ Hsplit).
    apply Forall_forall. intros [q res] Hin.
    by destruct (sent_is_r_out _ _ _ _ _ _ _ Hin).
Qed.

Lemma forwarded_for_overwritten_witness :
  Request.Header (Scenario.request 1 "192.0.2.1:1234") !! "X-Forwarded-For"
  = Some ["203.0.113.7"; "198.51.100.4"]
  ∧ Request.Header
      (r_out (ServeHTTP (Scenario.always Scenario.created) Scenario.in_order
                Scenario.fresh_proxy ResponseWriter.new
                (Scenario.request 1 "192.0.2.1:1234"))) !! "X-Forwarded-For"
    = Some ["192.0.2.1"].
Proof.
  split; [reflexivity|].
  apply (forwarded_for_overwritten _ _ _ _ _ "192.0.2.1" "1234").
  reflexivity.
Defined.

(** In particular, for a remote address written as an IPv4 address or a
    host name, a colon and a port, the header is what stands before the
    colon. *)
Lemma forwarded_for_host_port net rg p w r host port :
  Request.RemoteAddr r = host +:+ ":" +:+ port →
  Bytes.mem ":" host = false →
  Bytes.mem "[" host = false →
  Bytes.mem "]" host = false →
  Bytes.mem ":" port = false →
  Bytes.mem "[" port = false →
  Bytes.mem "]" port = false →
  Request.Header (r_out (ServeHTTP net rg p w r)) !! "X-Forwarded-For"
  = Some [host].
Proof.
  intros Haddr Hc Hl Hr Hpc Hpl Hpr.
  rewrite (r_out_split _ _ _ _ _ host port).
  - apply lookup_insert_eq.
  - rewrite Haddr. by apply SplitHostPort_host_port.
Qed.

(** C10 — The request of a client call differs from the inbound
    request only in its host, the host and scheme of its URL, its
    [RequestURI] and its forwarded-for header: method, body, protocol
    version, remote address, the rest of the URL and every other header
    are those of the inbound request. *)
Theorem outbound_frame net rg p w r q res :
  (q, res) ∈ sent (ServeHTTP net rg p w r) →
  Request.Method q = Request.Method r
  ∧ Request.Body q = Request.Body r
  ∧ Request.ProtoMajor q = Request.ProtoMajor r
  ∧ Request.RemoteAddr q = Request.RemoteAddr r
  ∧ Url.setScheme (Url.setHost (Request.URL q) (Url.Host (Request.URL r)))
                  (Url.Scheme (Request.URL r)) = Request.URL r
  ∧ delete "X-Forwarded-For" (Request.Header q)
    = delete "X-Forwarded-For" (Request.Header r)
  ∧ ∀ k, k ≠ "X-Forwarded-For" →
         Request.Header q !! k = Request.Header r !! k.
Proof.
  intros Hin.
  destruct (sent_split _ _ _ _ _ _ _ Hin) as (ip & port & Hsplit).
  destruct (sent_is_r_out _ _ _ _ _ _ _ Hin) as [-> _].
  rewrite (r_out_split _ _ _ _ _ _ _ Hsplit). simpl.
  repeat split; try done.
  - by destruct (Request.URL r).
  - unfold HeaderOps.Set_.
    change (Textproto.CanonicalMIMEHeaderKey "X-Forwarded-For")
      with "X-Forwarded-For".
    apply delete_insert_eq.
  - intros k Hk. unfold HeaderOps.Set_.
    change (Textproto.CanonicalMIMEHeaderKey "X-Forwarded-For")
      with "X-Forwarded-For".
    by rewrite lookup_insert_ne.
Qed.

Lemma outbound_frame_witness :
  let q := r_out (ServeHTTP (Scenario.always Scenario.created)
                    Scenario.in_order Scenario.fresh_proxy ResponseWriter.new
                    (Scenario.request 1 "192.0.2.1:1234")) in
  Request.Method q = "GET"
  ∧ Request.Header q !! "Test-Header-1" = Some ["1"]
  ∧ Url.Path (Request.URL q) = "/items"
  ∧ Url.RawQuery (Request.URL q) = "page=2".
Proof.
  intros q.
  destruct (outbound_frame (Scenario.always Scenario.created)
              Scenario.in_order Scenario.fresh_proxy ResponseWriter.new
              (Scenario.request 1 "192.0.2.1:1234") q (inl Scenario.created))
    as (Hmethod & _ & _ & _ & Hurl & _ & Hheader).
  - vm_compute. left.
  - split; [exact Hmethod|]. split.
    + rewrite Hheader; [reflexivity | discriminate].
    + split; reflexivity.
Defined.

End request_claims.

(** ** Errors *)

Section error_claims.
Import ResponseWriter proxy.

(** The exit taken when the transport cannot be configured. *)
Lemma configure_error net rg p w r ip port err :
  Net.SplitHostPort (Request.RemoteAddr r) = inl (ip, port) →
  Request.ProtoMajor r = 2 →
  Http2.ConfigureTransport (Client.Transport (Client p)) = inr err →
  ServeHTTP net rg p w r =
    {| w_out := internal_error err w;
       r_out := Request.set_Header (forwarding p r)
                  (HeaderOps.Set_ "X-Forwarded-For" ip (Request.Header r));
       p_out := p; sent := [] |}.
Proof.
  intros Hsplit Hv Hconf. unfold ServeHTTP. simpl.
  by rewrite Hsplit, Hv, Hconf.
Qed.

(** The proxy a call leaves behind: the proxy as it was, or, for an
    HTTP/2 request, the proxy with its transport configured. *)
Lemma p_out_cases net rg p w r :
  p_out (ServeHTTP net rg p w r) = p
  ∨ (Request.ProtoMajor r = 2
     ∧ ∃ tr, Http2.ConfigureTransport (Client.Transport (Client p)) = inl tr
             ∧ p_out (ServeHTTP net rg p w r) = set_Transport p tr).
Proof.
  destruct (decide (Request.ProtoMajor r = 2)) as [Hv|Hv];
    [|left; by apply p_out_http1].
  unfold ServeHTTP. simpl. rewrite Hv. simpl.
  destruct (Net.SplitHostPort (Request.RemoteAddr r)) as [[ip port]|err];
    simpl; [|by left].
  destruct (Http2.ConfigureTransport _) as [tr|err] eqn:Hconf; simpl;
    [|by left].
  right. split; [done|]. exists tr. split; [done|]. by destruct (net _ _).
Qed.

(** C7, as stated, fails for a failure of the outbound call that
    comes after the call has returned: the timeout expires while the body
    is read, the handler has already written the upstream status, and
    neither status 500 nor the error text is written. *)
Lemma body_failure_not_reported :
  Response.BodyErr Cases.cut_short =
    Some "context deadline exceeded (Client.Timeout or context cancellation while reading body)"
  ∧ calls (w_out (ServeHTTP (Scenario.always Cases.cut_short)
                    Scenario.in_order Scenario.fresh_proxy
                    ResponseWriter.new
                    (Scenario.request 1 "192.0.2.1:1234"))) =
      [HeaderSet "Content-Type" "text/plain"; HeaderSet "Trailer" "";
       CallWriteHeader 200; CallWrite "partial"]
  ∧ relayed (w_out (ServeHTTP (Scenario.always Cases.cut_short)
                      Scenario.in_order Scenario.fresh_proxy
                      ResponseWriter.new
                      (Scenario.request 1 "192.0.2.1:1234"))) =
      Some {| status := 200;
              headers := {[ "Content-Type" := ["text/plain"];
                            "Trailer" := [""] ]};
              content := "partial" |}.
Proof. repeat split; vm_compute; reflexivity. Qed.

(** C7 — When the remote address does not split, when the transport
    cannot be configured for an HTTP/2 request, or when the client call
    returns an error, the handler writes status 500 and then the error
    text followed by a newline, and nothing else; the client was called at
    most once and not again after the failure; the proxy keeps its
    upstream and is left exactly as any other outcome of the call would
    have left it: as it was, or, for an HTTP/2 request whose transport was
    configured, with that transport. *)
Theorem errors_answer_500 net rg p w r err :
  wrote w = None →
  Net.SplitHostPort (Request.RemoteAddr r) = inr err
  ∨ (Request.ProtoMajor r = 2
     ∧ (∃ ip port,
          Net.SplitHostPort (Request.RemoteAddr r) = inl (ip, port))
     ∧ Http2.ConfigureTransport (Client.Transport (Client p)) = inr err)
  ∨ (∃ q, (q, inr err) ∈ sent (ServeHTTP net rg p w r)) →
  calls (w_out (ServeHTTP net rg p w r)) =
    calls w ++ [CallWriteHeader 500; CallWrite (err +:+ newline)]
  ∧ relayed (w_out (ServeHTTP net rg p w r)) =
      Some {| status := 500; headers := header w;
              content := body w +:+ err +:+ newline |}
  ∧ (length (sent (ServeHTTP net rg p w r)) ≤ 1)%nat
  ∧ Forall (fun call => call.2 = inr err) (sent (ServeHTTP net rg p w r))
  ∧ Host (p_out (ServeHTTP net rg p w r)) = Host p
  ∧ (∀ net' rg' w',
       p_out (ServeHTTP net' rg' p w' r) = p_out (ServeHTTP net rg p w r))
  ∧ (Request.ProtoMajor r ≠ 2 → p_out (ServeHTTP net rg p w r) = p)
  ∧ (p_out (ServeHTTP net rg p w r) = p
     ∨ (Request.ProtoMajor r = 2
        ∧ ∃ tr,
            Http2.ConfigureTransport (Client.Transport (Client p)) = inl tr
            ∧ p_out (ServeHTTP net rg p w r) = set_Transport p tr)).
Proof.
  intros Hw Herr.
  assert (w_out (ServeHTTP net rg p w r) = internal_error err w
          ∧ Forall (fun call => call.2 = inr err)
                   (sent (ServeHTTP net rg p w r))) as [Hout Hsent].
  { destruct Herr as [Hsplit | [(Hv & (ip & port & Hsplit) & Hconf) | [q Hin]]].
    - rewrite (split_error _ _ _ _ _ _ Hsplit). simpl. by split.
    - rewrite (configure_error _ _ _ _ _ _ _ _ Hsplit Hv Hconf). simpl.
      by split.
    - split; [by apply (sent_error _ _ _ _ _ q)|].
      destruct (sent_is_r_out _ _ _ _ _ _ _ Hin) as [_ ->].
      by repeat constructor. }
  rewrite Hout.
  split; [apply calls_internal_error|].
  split; [by apply relayed_internal_error|].
  split; [apply sent_at_most_once|].
  split; [done|].
  split; [apply Host_p_out|].
  split; [intros; apply p_out_network|].
  split; [apply p_out_http1 | apply p_out_cases].
Qed.

Lemma errors_answer_500_witness :
  relayed (w_out (ServeHTTP Scenario.unreachable Scenario.in_order
                    Scenario.fresh_proxy ResponseWriter.new
                    (Scenario.request 1 "192.0.2.1:1234"))) =
    Some {| status := 500; headers := ∅;
            content :=
              "dial tcp 127.0.0.1:9000: connect: connection refused"
              +:+ newline |}.
Proof.
  apply (errors_answer_500 Scenario.unreachable Scenario.in_order
           Scenario.fresh_proxy ResponseWriter.new
           (Scenario.request 1 "192.0.2.1:1234")
           "dial tcp 127.0.0.1:9000: connect: connection refused").
  - reflexivity.
  - right. right. eexists. vm_compute. left.
Defined.

(** A request whose remote address carries no port is answered the same
    way, without any client call. *)
Example malformed_remote_address :
  calls (w_out (ServeHTTP (Scenario.always Scenario.created) Scenario.in_order
                  Scenario.fresh_proxy ResponseWriter.new
                  (Scenario.request 1 "192.0.2.1"))) =
    [CallWriteHeader 500;
     CallWrite ("address 192.0.2.1: missing port in address" +:+ newline)]
  ∧ sent (ServeHTTP (Scenario.always Scenario.created) Scenario.in_order
            Scenario.fresh_proxy ResponseWriter.new
            (Scenario.request 1 "192.0.2.1")) = [].
Proof. split; vm_compute; reflexivity. Qed.

End error_claims.

(** ** Visiting orders *)

Section order_facts.
Import ResponseWriter proxy.

Lemma lookup_copy_entries_other es w c :
  (∀ e, e ∈ es → Textproto.CanonicalMIMEHeaderKey e.1 = c → e.2 = []) →
  header (copy_entries es w) !! c = header w !! c.
Proof.
  induction es as [|e es IH] using rev_ind; intros Hnone; [done|].
  rewrite copy_entries_snoc.
  destruct (decide (Textproto.CanonicalMIMEHeaderKey e.1 = c)) as [Heq|Hne].
  - rewrite (Hnone e); [|apply elem_of_app; right; by apply list_elem_of_singleton|done].
    simpl. apply IH. intros e' He'. apply Hnone. apply elem_of_app. by left.
  - rewrite lookup_set_each_ne by done.
    apply IH. intros e' He'. apply Hnone. apply elem_of_app. by left.
Qed.

(** Entries whose keys have pairwise different canonical forms can be
    copied in any order. *)
Lemma header_copy_entries_perm es1 es2 w :
  es1 ≡ₚ es2 →
  (∀ e e', e ∈ es1 → e' ∈ es1 →
           Textproto.CanonicalMIMEHeaderKey e.1
           = Textproto.CanonicalMIMEHeaderKey e'.1 → e = e') →
  header (copy_entries es1 w) = header (copy_entries es2 w).
Proof.
  intros Hperm Hsole. apply map_eq. intros c.
  destruct (decide (Exists (fun e => Textproto.CanonicalMIMEHeaderKey e.1 = c
                                     ∧ e.2 ≠ []) es1)) as [Hex|Hnone].
  - apply Exists_exists in Hex as ([k vs] & Hin & Hc & Hvs). simpl in *.
    destruct (last vs) as [v|] eqn:Hlast;
      [|by apply last_None in Hlast].
    subst c.
    rewrite (lookup_copy_entries es1 w k vs v); [| done | done |].
    + symmetry. apply (lookup_copy_entries es2 w k vs v); [|done|].
      * by rewrite <- Hperm.
      * intros e He Hsame. rewrite <- Hperm in He. by apply Hsole.
    + intros e He Hsame. by apply Hsole.
  - assert (∀ es, es ≡ₚ es1 →
              ∀ e, e ∈ es → Textproto.CanonicalMIMEHeaderKey e.1 = c →
                   e.2 = []) as Hempty.
    { intros es Hes e He Hc. rewrite Hes in He.
      destruct (decide (e.2 = [])) as [|Hvs]; [done|].
      destruct Hnone. apply Exists_exists. by exists e. }
    rewrite !lookup_copy_entries_other; [done| |].
    + by apply Hempty.
    + by apply Hempty.
Qed.

Lemma Permutation_short {A} (l1 l2 : list A) :
  l1 ≡ₚ l2 → (length l1 ≤ 1)%nat → l1 = l2.
Proof.
  intros Hperm Hlen. destruct l1 as [|x [|y l1]]; simpl in Hlen; [| |lia].
  - by apply Permutation_nil_l in Hperm.
  - by apply Permutation_singleton_l in Hperm.
Qed.

(** With canonical header keys and at most one declared trailer, the
    relayed status, headers and body do not depend on the visiting
    orders. *)
Lemma relayed_any_order rg1 rg2 resp w :
  fair rg1 → fair rg2 →
  canonical_keys (Response.Header resp) →
  (size (Response.Trailer resp) ≤ 1)%nat →
  relayed (relay rg1 resp w) = relayed (relay rg2 resp w).
Proof.
  intros (Hh1 & Hk1 & _) (Hh2 & Hk2 & _) Hcanon Hsize.
  assert ((range_trailer_keys rg1 (Response.Trailer resp)).*1
          = (range_trailer_keys rg2 (Response.Trailer resp)).*1) as Hnames.
  { apply Permutation_short.
    - by rewrite (Hk1 _), (Hk2 _).
    - by rewrite length_fmap, (Hk1 _), length_map_to_list. }
  assert (header (copy_entries (range_header rg1 (Response.Header resp)) w)
          = header (copy_entries (range_header rg2 (Response.Header resp)) w))
    as Hheader.
  { apply header_copy_entries_perm.
    - by rewrite (Hh1 _), (Hh2 _).
    - intros e e' He He'. rewrite (Hh1 _) in He, He'.
      by apply (canonical_keys_sole (Response.Header resp)). }
  unfold relayed. rewrite !body_relay.
  destruct (wrote w) as [done_|] eqn:Hw.
  - unfold relay.
    rewrite !wrote_copy_entries.
    rewrite !(wrote_Copy _ _ done_); [done| |];
      simpl; unfold commit; simpl; by rewrite wrote_copy_entries, Hw.
  - rewrite !wrote_relay by done. by rewrite Hnames, Hheader.
Qed.

(** A request that is not HTTP/2, handled twice by one proxy in front of
    an upstream whose responses have canonical header keys and at most one
    declared trailer, is answered twice the same, whatever the visiting
    orders. *)
Lemma http1_repeated_any_order (net : Network) rg1 rg2 p r :
  fair rg1 → fair rg2 →
  Request.ProtoMajor r ≠ 2 →
  (∀ c q resp, net c q = inl resp →
     canonical_keys (Response.Header resp)
     ∧ (size (Response.Trailer resp) ≤ 1)%nat) →
  relayed (w_out (serve_twice net rg1 rg2 p r r).2)
  = relayed (w_out (serve_twice net rg1 rg2 p r r).1).
Proof.
  intros Hfair1 Hfair2 Hv Hnet. unfold serve_twice. simpl.
  rewrite p_out_http1 by done.
  apply Z.eqb_neq in Hv.
  unfold ServeHTTP. simpl. rewrite Hv.
  destruct (Net.SplitHostPort (Request.RemoteAddr r)) as [[ip port]|err];
    simpl; [|done].
  destruct (net _ _) as [resp|err] eqn:Hresp; simpl; [|done].
  destruct (Hnet _ _ _ Hresp). by apply relayed_any_order.
Qed.

(** With two declared trailers the announcement depends on the order in
    which the loop visits them. *)
Example announcement_order_varies :
  (headers <$> relayed (relay Scenario.in_order Scenario.two_trailers
                          ResponseWriter.new)) ≫= (.!! "Trailer")
  = Some ["X-Checksum,X-Length"]
  ∧ (headers <$> relayed (relay Scenario.reversed Scenario.two_trailers
                            ResponseWriter.new)) ≫= (.!! "Trailer")
    = Some ["X-Length,X-Checksum"].
Proof. split; vm_compute; reflexivity. Qed.

End order_facts.

(** ** Handling a request again *)

Section repetition.
Import ResponseWriter proxy.

(** Once the "https" scheme is registered on the transport, every HTTP/2
    request whose address splits is answered with status 500 and no client
    call is made. *)
Lemma http2_after_upgrade net rg p w r ip port :
  "https" ∈ Transport.altProto (Client.Transport (Client p)) →
  Request.ProtoMajor r = 2 →
  Net.SplitHostPort (Request.RemoteAddr r) = inl (ip, port) →
  w_out (ServeHTTP net rg p w r)
  = internal_error "protocol https already registered" w
  ∧ sent (ServeHTTP net rg p w r) = []
  ∧ p_out (ServeHTTP net rg p w r) = p.
Proof.
  intros Hreg Hv Hsplit. unfold ServeHTTP. simpl. rewrite Hsplit, Hv. simpl.
  unfold Http2.ConfigureTransport, Transport.RegisterProtocol.
  by rewrite decide_True.
Qed.

(** An HTTP/2 request whose address splits leaves the "https" scheme
    registered on the proxy's transport. *)
Lemma http2_registers net rg p w r ip port :
  Request.ProtoMajor r = 2 →
  Net.SplitHostPort (Request.RemoteAddr r) = inl (ip, port) →
  "https" ∈ Transport.altProto
              (Client.Transport (Client (p_out (ServeHTTP net rg p w r)))).
Proof.
  intros Hv Hsplit. unfold ServeHTTP. simpl. rewrite Hsplit, Hv. simpl.
  unfold Http2.ConfigureTransport, Transport.RegisterProtocol.
  destruct (decide _) as [Hreg|Hreg]; simpl; [done|].
  destruct (net _ _); simpl;
    repeat (destruct (Http2.strSliceContains _ _); simpl); set_solver.
Qed.

(** Whatever the upstream answers, the second of two HTTP/2 requests
    handled by the same proxy is answered with status 500. *)
Lemma http2_repeated net rg1 rg2 p r1 r2 ip1 port1 ip2 port2 :
  Request.ProtoMajor r1 = 2 →
  Request.ProtoMajor r2 = 2 →
  Net.SplitHostPort (Request.RemoteAddr r1) = inl (ip1, port1) →
  Net.SplitHostPort (Request.RemoteAddr r2) = inl (ip2, port2) →
  relayed (w_out (serve_twice net rg1 rg2 p r1 r2).2) =
    Some {| status := 500; headers := ∅;
            content := "protocol https already registered" +:+ newline |}.
Proof.
  intros Hv1 Hv2 Hsplit1 Hsplit2. unfold serve_twice. simpl.
  destruct (http2_after_upgrade net rg2
              (p_out (ServeHTTP net rg1 p ResponseWriter.new r1))
              ResponseWriter.new r2 ip2 port2) as (-> & _ & _); try done.
  by apply (http2_registers _ _ _ _ _ ip1 port1).
Qed.

(** A request that is not HTTP/2 leaves the proxy as it was, so that
    handling it again, with the same visiting orders and an upstream that
    answers the same, leaves the same response writer. *)
Lemma http1_repeated net rg p r :
  Request.ProtoMajor r ≠ 2 →
  w_out (serve_twice net rg rg p r r).2 = w_out (serve_twice net rg rg p r r).1.
Proof.
  intros Hv. unfold serve_twice. simpl. by rewrite p_out_http1.
Qed.

(** C8 — Evaluation at two identical HTTP/2 requests handled by one
    proxy in front of an upstream that always answers 201: the first is
    relayed, the second is answered with status 500 without the upstream
    being called. *)
Theorem http2_second_request_fails :
  let both :=
    serve_twice (Scenario.always Scenario.created) Scenario.in_order
      Scenario.in_order Scenario.fresh_proxy
      (Scenario.request 2 "192.0.2.1:1234")
      (Scenario.request 2 "192.0.2.1:1234") in
  relayed (w_out both.1) =
    Some {| status := 201;
            headers := {[ "Response-Header-1" := ["1"];
                          "Trailer" := ["X-Trailer"];
                          "X" := ["2"] ]};
            content := "Hello World!" |}
  ∧ relayed (w_out both.2) =
      Some {| status := 500; headers := ∅;
              content := "protocol https already registered" +:+ newline |}
  ∧ length (sent both.1) = 1%nat
  ∧ sent both.2 = [].
Proof. repeat split; vm_compute; reflexivity. Qed.

End repetition.

(** ** Construction *)

Section construction.
Import proxy.

(** C9, as stated, fails: a relative reference is accepted, and the
    proxy built from it has neither scheme nor host. *)
Lemma New_accepts_relative_url :
  valid_absolute_url "/foo" = false
  ∧ ∃ p, New "/foo" = inl p
         ∧ Url.Scheme (Host p) = "" ∧ Url.Host (Host p) = ""
         ∧ Url.Path (Host p) = "/foo".
Proof. split; [reflexivity|]. eexists. repeat split. Qed.

(** *** Parsing a plain path *)

Lemma plain_path_bytes_cons c s :
  forallb Cases.plain_path_byte (list_ascii_of_string (String c s)) = true →
  Cases.plain_path_byte c = true
  ∧ forallb Cases.plain_path_byte (list_ascii_of_string s) = true.
Proof.
  cbn [forallb list_ascii_of_string]. intros H.
  by apply andb_true_iff in H.
Qed.

Lemma mem_cons_false c d s :
  Bytes.mem c (String d s) = false →
  Bytes.eqb d c = false ∧ Bytes.mem c s = false.
Proof.
  cbn [Bytes.mem]. intros H. apply orb_false_iff in H as [Hd Hs].
  by rewrite eqb_sym_byte.
Qed.

Lemma plain_path_byte_absent c d :
  Cases.plain_path_byte c = true →
  Bytes.mem d "#?:%" = true →
  Bytes.eqb c d = false.
Proof.
  unfold Cases.plain_path_byte. intros Hc Hd.
  apply andb_true_iff in Hc as [_ Hc]. apply negb_true_iff in Hc.
  destruct (Bytes.eqb c d) eqn:Heq; [|done].
  apply Ascii.eqb_eq in Heq. subst d. congruence.
Qed.

Lemma plain_path_mem s d :
  forallb Cases.plain_path_byte (list_ascii_of_string s) = true →
  Bytes.mem d "#?:%" = true →
  Bytes.mem d s = false.
Proof.
  intros Hs Hd. induction s as [|c s IH]; [done|].
  apply plain_path_bytes_cons in Hs as [Hc Hs]. cbn [Bytes.mem].
  by rewrite eqb_sym_byte, (plain_path_byte_absent c d), IH.
Qed.

Lemma plain_path_no_control s :
  forallb Cases.plain_path_byte (list_ascii_of_string s) = true →
  Url.stringContainsCTLByte s = false.
Proof.
  unfold Url.stringContainsCTLByte.
  induction s as [|c s IH]; [done|]. intros Hs.
  apply plain_path_bytes_cons in Hs as [Hc Hs].
  cbn [existsb list_ascii_of_string].
  rewrite IH by done. unfold Cases.plain_path_byte in Hc.
  apply andb_true_iff in Hc as [Hc _]. apply negb_true_iff in Hc.
  by rewrite Hc.
Qed.

Lemma Cut_absent s c :
  Bytes.mem c s = false → Strings.Cut s c = (s, "", false).
Proof.
  intros Hmem. unfold Strings.Cut, Strings.IndexByte.
  by rewrite IndexByte_from_absent.
Qed.

Lemma getScheme_loop_no_colon i rest rawURL :
  Bytes.mem ":" rest = false →
  Url.getScheme_loop i rest rawURL = inl ("", rawURL).
Proof.
  revert i. induction rest as [|c rest IH]; intros i Hmem; [done|].
  apply mem_cons_false in Hmem as [Hc Hrest].
  cbn [Url.getScheme_loop]. rewrite Hc.
  destruct (Bytes.is_lower c || Bytes.is_upper c); [by apply IH|].
  destruct (Bytes.is_digit c || Bytes.mem c "+-."); [|done].
  destruct (i =? 0); [done | by apply IH].
Qed.

Lemma HasSuffixByte_absent s c :
  Bytes.mem c s = false → Strings.HasSuffixByte s c = false.
Proof.
  induction s as [|d s IH]; [done|]. intros Hmem.
  apply mem_cons_false in Hmem as [Hd Hs].
  cbn [Strings.HasSuffixByte]. destruct s; [done | by apply IH].
Qed.

Lemma mem_substring c n m s :
  Bytes.mem c s = false → Bytes.mem c (String.substring n m s) = false.
Proof.
  revert n m. induction s as [|d s IH]; intros n m Hmem.
  - by destruct n, m.
  - apply mem_cons_false in Hmem as [Hd Hs].
    destruct n as [|n]; destruct m as [|m];
      cbn [String.substring Bytes.mem]; try done.
    + by rewrite eqb_sym_byte, Hd, IH.
    + by apply IH.
    + by apply IH.
Qed.

Lemma unescape_path_plain s :
  Bytes.mem "%" s = false → Url.unescape s Url.encodePath = inl s.
Proof.
  intros Hmem. unfold Url.unescape.
  assert (Url.unescape_check s Url.encodePath = None) as ->.
  { induction s as [|c s IH]; [done|].
    apply mem_cons_false in Hmem as [Hc Hs].
    cbn [Url.unescape_check Url.is_host_mode andb]. rewrite Hc.
    destruct (Bytes.eqb c "+"); by apply IH. }
  f_equal. induction s as [|c s IH]; [done|].
  apply mem_cons_false in Hmem as [Hc Hs].
  cbn [Url.unescape_decode]. rewrite Hc.
  destruct (Bytes.eqb c "+") eqn:Hplus.
  - apply Ascii.eqb_eq in Hplus. subst c. by rewrite IH.
  - by rewrite IH.
Qed.

(** A plain path parses to the URL that has this path and nothing else. *)
Lemma Parse_plain_path s :
  Cases.plain_path s = true →
  Url.Parse s =
    inl {| Url.Scheme := ""; Url.Opaque := ""; Url.User := None;
           Url.Host := ""; Url.Path := s; Url.OmitHost := false;
           Url.ForceQuery := false; Url.RawQuery := ""; Url.Fragment := "" |}.
Proof.
  unfold Cases.plain_path. intros Hs.
  apply andb_true_iff in Hs as [Hbytes Hslashes].
  apply negb_true_iff in Hslashes.
  unfold Url.Parse. rewrite Cut_absent by (by apply plain_path_mem).
  unfold Url.parse.
  rewrite plain_path_no_control by done.
  rewrite andb_false_r.
  destruct (String.eqb s "*") eqn:Hstar.
  { apply String.eqb_eq in Hstar. by subst s. }
  unfold Url.getScheme.
  rewrite getScheme_loop_no_colon by (by apply plain_path_mem).
  rewrite HasSuffixByte_absent by (by apply plain_path_mem).
  rewrite (Cut_absent s "?") by (by apply plain_path_mem).
  cbn [Strings.ToLower Strings.is_empty andb negb orb].
  rewrite Hslashes. rewrite !andb_false_r.
  assert ((0 <=? Strings.IndexByte (Strings.Cut s "/").1.1 ":") = false)
    as Hsegment.
  { unfold Strings.IndexByte. rewrite IndexByte_from_absent; [done|].
    unfold Strings.Cut. destruct (0 <=? Strings.IndexByte s "/"); simpl.
    - unfold Strings.slice. apply mem_substring. by apply plain_path_mem.
    - by apply plain_path_mem. }
  rewrite Hsegment, !andb_false_r.
  unfold Url.setPath.
  rewrite unescape_path_plain by (by apply plain_path_mem).
  by destruct (Strings.HasPrefix s "/").
Qed.

(** C9 — [New] fails exactly when [url.Parse] fails, with that error
    wrapped, and then the string is not a valid absolute URL; otherwise
    the proxy holds the parsed URL, absolute or not, next to the client
    with the fixed timeouts, and no call of [ServeHTTP] changes that URL.
    Strings that are not absolute URLs are accepted too: every plain path
    yields a proxy whose upstream has neither scheme nor host. *)
Theorem New_follows_Parse host :
  match Url.Parse host with
  | inr err =>
      New host = inr (ParseUrlError err) ∧ valid_absolute_url host = false
  | inl u =>
      ∃ p, New host = inl p
           ∧ Host p = u
           ∧ Client p = outbound_client
           ∧ valid_absolute_url host = Url.IsAbs u
           ∧ ∀ net rg w r, Host (p_out (ServeHTTP net rg p w r)) = u
  end
  ∧ (Cases.plain_path host = true →
     valid_absolute_url host = false
     ∧ ∃ p, New host = inl p
            ∧ Url.Scheme (Host p) = ""
            ∧ Url.Host (Host p) = ""
            ∧ Url.Path (Host p) = host).
Proof.
  split.
  - unfold New, valid_absolute_url.
    destruct (Url.Parse host) as [u|err]; [|done].
    eexists. split; [done|]. split; [done|]. split; [done|].
    split; [done|]. intros. apply Host_p_out.
  - intros Hplain. unfold New, valid_absolute_url.
    rewrite (Parse_plain_path _ Hplain). split; [done|].
    eexists. by repeat split.
Qed.

Lemma New_follows_Parse_witness :
  valid_absolute_url "static/index.html" = false
  ∧ ∃ p, New "static/index.html" = inl p
         ∧ Url.Scheme (Host p) = ""
         ∧ Url.Host (Host p) = ""
         ∧ Url.Path (Host p) = "static/index.html".
Proof.
  apply (New_follows_Parse "static/index.html"). reflexivity.
Defined.

(** A string that begins with two slashes is no plain path: it names a
    host, and the proxy built from it has that host and no scheme. *)
Example New_accepts_network_path :
  Cases.plain_path "//example.com/x" = false
  ∧ valid_absolute_url "//example.com/x" = false
  ∧ ∃ p, New "//example.com/x" = inl p
         ∧ Url.Scheme (Host p) = ""
         ∧ Url.Host (Host p) = "example.com".
Proof. split; [reflexivity|]. split; [reflexivity|]. eexists. by repeat split. Qed.

Example New_upstream :
  New "http://127.0.0.1:9000" = inl Scenario.fresh_proxy
  ∧ valid_absolute_url "http://127.0.0.1:9000" = true.
Proof. split; reflexivity. Qed.

Example New_rejects :
  New "http://127.0.0.1:port" =
    inr (ParseUrlError {| Url.Op := "parse";
                          Url.ErrURL := "http://127.0.0.1:port";
                          Url.Err := Url.InvalidPort ":port" |}).
Proof. reflexivity. Qed.

End construction.

(** * Further properties of the handler *)

Section relay_more.
Import ResponseWriter proxy.

(** X1 — Whenever the client call returned a response and the header
    had not been written before, the caller receives the upstream status
    code, and the body is what the writer already held followed by the
    chunks of the upstream body in the order they were read. *)
Theorem relay_status_and_body net rg p w r q resp :
  wrote w = None →
  (q, inl resp) ∈ sent (ServeHTTP net rg p w r) →
  ∃ rel,
    relayed (w_out (ServeHTTP net rg p w r)) = Some rel
    ∧ status rel = Response.StatusCode resp
    ∧ content rel = body w +:+ foldr String.append "" (Response.Body resp).
Proof.
  intros Hw Hsent. rewrite (sent_relay _ _ _ _ _ _ _ Hsent).
  unfold relayed. rewrite wrote_relay by done.
  eexists. split; [done|]. split; [done|]. simpl. apply body_relay.
Qed.

Lemma relay_status_and_body_witness :
  ∃ rel,
    relayed (w_out (ServeHTTP (Scenario.always Cases.odd_headers)
                      Scenario.in_order Scenario.fresh_proxy
                      Cases.prepared_writer
                      (Scenario.request 1 "192.0.2.1:1234"))) = Some rel
    ∧ status rel = 200
    ∧ content rel = "abc".
Proof.
  destruct (relay_status_and_body (Scenario.always Cases.odd_headers)
              Scenario.in_order Scenario.fresh_proxy Cases.prepared_writer
              (Scenario.request 1 "192.0.2.1:1234")
              (r_out (ServeHTTP (Scenario.always Cases.odd_headers)
                        Scenario.in_order Scenario.fresh_proxy
                        Cases.prepared_writer
                        (Scenario.request 1 "192.0.2.1:1234")))
              Cases.odd_headers) as (rel & Hrel & Hstatus & Hcontent).
  - reflexivity.
  - vm_compute. left.
  - exists rel. split; [exact Hrel|]. split; [exact Hstatus | exact Hcontent].
Defined.

(** X2 — Whenever the client call returned a response, the header map
    of the writer ends up holding, for every trailer key whose canonical
    form no other trailer key shares, exactly the last of the values the
    trailer has once the body has been read. *)
Theorem trailer_values_relayed net rg p w r q resp k vs v :
  fair rg →
  (q, inl resp) ∈ sent (ServeHTTP net rg p w r) →
  Response.TrailerAtEOF resp !! k = Some vs →
  last vs = Some v →
  (∀ k', is_Some (Response.TrailerAtEOF resp !! k') →
         Textproto.CanonicalMIMEHeaderKey k' = Textproto.CanonicalMIMEHeaderKey k →
         k' = k) →
  header (w_out (ServeHTTP net rg p w r)) !! Textproto.CanonicalMIMEHeaderKey k
  = Some [v]
  ∧ HeaderOps.Get k (header (w_out (ServeHTTP net rg p w r))) = v.
Proof.
  intros (_ & _ & Hvisit) Hsent Hk Hlast Hsole.
  rewrite (sent_relay _ _ _ _ _ _ _ Hsent).
  assert (header (relay rg resp w) !! Textproto.CanonicalMIMEHeaderKey k
          = Some [v]) as Hh.
  { unfold relay. apply (lookup_copy_entries _ _ _ vs); [|done|].
    - rewrite (Hvisit _). by apply elem_of_map_to_list.
    - intros [k' vs'] He Hsame. simpl in Hsame.
      rewrite (Hvisit _) in He. apply elem_of_map_to_list in He.
      assert (k' = k) as -> by (apply Hsole; [by eexists | done]).
      congruence. }
  split; [done|]. unfold HeaderOps.Get. by rewrite Hh.
Qed.

Lemma trailer_values_relayed_witness :
  HeaderOps.Get "x-sum"
    (header (w_out (ServeHTTP (Scenario.always Cases.odd_headers)
                      Scenario.reversed Scenario.fresh_proxy
                      ResponseWriter.new
                      (Scenario.request 1 "192.0.2.1:1234")))) = "6".
Proof.
  apply (trailer_values_relayed _ _ _ _ _
           (r_out (ServeHTTP (Scenario.always Cases.odd_headers)
                     Scenario.reversed Scenario.fresh_proxy
                     ResponseWriter.new
                     (Scenario.request 1 "192.0.2.1:1234")))
           Cases.odd_headers "X-Sum" ["0"; "6"] "6").
  - repeat split; intros m; simpl; apply reverse_Permutation.
  - vm_compute. left.
  - reflexivity.
  - reflexivity.
  - intros k' [vs' Hk'] _. simpl in Hk'.
    by apply lookup_singleton_Some in Hk' as [<- _].
Defined.

(** X3 — Whenever the client call returned a response and the header
    had not been written before, a header other than [Trailer] that no
    upstream header key with at least one value maps to is relayed as the
    writer held it before the call: a key that comes with an empty value
    list is not copied, and the trailer values written after the body do
    not reach the relayed headers. *)
Theorem other_headers_kept net rg p w r q resp c :
  fair rg →
  wrote w = None →
  (q, inl resp) ∈ sent (ServeHTTP net rg p w r) →
  c ≠ "Trailer" →
  (∀ k vs, Response.Header resp !! k = Some vs →
           Textproto.CanonicalMIMEHeaderKey k = c → vs = []) →
  ∃ rel,
    relayed (w_out (ServeHTTP net rg p w r)) = Some rel
    ∧ headers rel !! c = header w !! c.
Proof.
  intros (Hvisit & _ & _) Hw Hsent Hne Hnone.
  rewrite (sent_relay _ _ _ _ _ _ _ Hsent).
  unfold relayed. rewrite wrote_relay by done.
  eexists. split; [done|]. simpl.
  rewrite lookup_insert_ne by done.
  apply lookup_copy_entries_other.
  intros [k vs] He Hc. rewrite (Hvisit _) in He.
  apply elem_of_map_to_list in He. by apply (Hnone k).
Qed.

Lemma other_headers_kept_witness :
  ∃ rel,
    relayed (w_out (ServeHTTP (Scenario.always Cases.odd_headers)
                      Scenario.in_order Scenario.fresh_proxy
                      Cases.prepared_writer
                      (Scenario.request 1 "192.0.2.1:1234"))) = Some rel
    ∧ headers rel !! "Etag" = None.
Proof.
  apply (other_headers_kept _ _ _ Cases.prepared_writer _
           (r_out (ServeHTTP (Scenario.always Cases.odd_headers)
                     Scenario.in_order Scenario.fresh_proxy
                     Cases.prepared_writer
                     (Scenario.request 1 "192.0.2.1:1234")))
           Cases.odd_headers "Etag").
  - repeat split; intros m; reflexivity.
  - reflexivity.
  - vm_compute. left.
  - discriminate.
  - intros k vs Hk Hc. simpl in Hk.
    apply lookup_insert_Some in Hk as [[_ <-]|[_ Hk]]; [done|].
    apply lookup_singleton_Some in Hk as [<- _].
    vm_compute in Hc. discriminate.
Defined.

End relay_more.

Section calls_more.
Import ResponseWriter proxy.

(** X4 — The handler calls the client once when the remote address
    splits and the request is not an HTTP/2 request on a transport that
    already has the "https" scheme registered; otherwise it does not call
    it at all. *)
Theorem upstream_called_exactly_when net rg p w r :
  length (sent (ServeHTTP net rg p w r)) =
    match Net.SplitHostPort (Request.RemoteAddr r) with
    | inr _ => 0%nat
    | inl _ =>
        if bool_decide
             (Request.ProtoMajor r = 2
              ∧ "https" ∈ Transport.altProto (Client.Transport (Client p)))
        then 0%nat else 1%nat
    end.
Proof.
  unfold ServeHTTP. simpl.
  destruct (Net.SplitHostPort (Request.RemoteAddr r)) as [[ip port]|err];
    simpl; [|done].
  destruct (Request.ProtoMajor r =? 2) eqn:Hv; simpl.
  - apply Z.eqb_eq in Hv.
    unfold Http2.ConfigureTransport, Transport.RegisterProtocol.
    destruct (decide _) as [Hreg|Hreg]; simpl.
    + by rewrite bool_decide_eq_true_2.
    + rewrite bool_decide_eq_false_2 by (by intros [_ ?]).
      by destruct (net _ _).
  - apply Z.eqb_neq in Hv.
    rewrite bool_decide_eq_false_2 by (by intros [? _]).
    by destruct (net _ _).
Qed.

(** What [ConfigureTransport] does to a transport on which the "https"
    scheme is not registered yet. *)
Lemma ConfigureTransport_first t1 :
  "https" ∉ Transport.altProto t1 →
  ∃ t2,
    Http2.ConfigureTransport t1 = inl t2
    ∧ "https" ∈ Transport.altProto t2
    ∧ "h2" ∈ Transport.NextProtos t2
    ∧ "http/1.1" ∈ Transport.NextProtos t2
    ∧ Transport.DialTimeout t2 = Transport.DialTimeout t1
    ∧ Transport.TLSHandshakeTimeout t2 = Transport.TLSHandshakeTimeout t1
    ∧ Transport.ResponseHeaderTimeout t2 = Transport.ResponseHeaderTimeout t1.
Proof.
  intros Hfree.
  unfold Http2.ConfigureTransport, Transport.RegisterProtocol.
  rewrite decide_False by done. simpl.
  eexists. split; [done|].
  unfold Http2.strSliceContains.
  assert ("https" ∈ ({["https"]} ∪ Transport.altProto t1 : gset string))
    as Hreg by (apply elem_of_union; left; by apply elem_of_singleton).
  destruct (bool_decide ("h2" ∈ Transport.NextProtos t1)) eqn:Hh2; simpl.
  - apply bool_decide_eq_true_1 in Hh2.
    destruct (bool_decide ("http/1.1" ∈ Transport.NextProtos t1)) eqn:Hh1;
      simpl.
    + apply bool_decide_eq_true_1 in Hh1. by repeat split.
    + repeat split; try done.
      * apply elem_of_app. by left.
      * apply elem_of_app. right. by left.
  - destruct (bool_decide ("http/1.1" ∈ "h2" :: Transport.NextProtos t1))
      eqn:Hh1; simpl.
    + apply bool_decide_eq_true_1 in Hh1. repeat split; try done. by left.
    + repeat split; try done.
      * by left.
      * right. apply elem_of_app. right. by left.
Qed.

(** X5 — An HTTP/2 request whose address splits, handled by a proxy
    whose transport has no "https" scheme registered, registers the scheme
    and makes "h2" and "http/1.1" protocols of the TLS configuration, keeps
    the upstream and the timeouts, and calls the client once, as it is
    after this configuration. *)
Theorem http2_first_request_upgrades net rg p w r ip port :
  "https" ∉ Transport.altProto (Client.Transport (Client p)) →
  Request.ProtoMajor r = 2 →
  Net.SplitHostPort (Request.RemoteAddr r) = inl (ip, port) →
  let ex := ServeHTTP net rg p w r in
  let tr := Client.Transport (Client (p_out ex)) in
  "https" ∈ Transport.altProto tr
  ∧ "h2" ∈ Transport.NextProtos tr
  ∧ "http/1.1" ∈ Transport.NextProtos tr
  ∧ Host (p_out ex) = Host p
  ∧ Client.Timeout (Client (p_out ex)) = Client.Timeout (Client p)
  ∧ Transport.DialTimeout tr
    = Transport.DialTimeout (Client.Transport (Client p))
  ∧ Transport.TLSHandshakeTimeout tr
    = Transport.TLSHandshakeTimeout (Client.Transport (Client p))
  ∧ Transport.ResponseHeaderTimeout tr
    = Transport.ResponseHeaderTimeout (Client.Transport (Client p))
  ∧ sent ex = [(r_out ex, net (Client (p_out ex)) (r_out ex))].
Proof.
  intros Hfree Hv Hsplit.
  destruct (ConfigureTransport_first _ Hfree)
    as (t2 & Hconf & Hreg & Hh2 & Hh1 & Hdial & Htls & Hhdr).
  unfold ServeHTTP. simpl. rewrite Hsplit, Hv. simpl. rewrite Hconf. simpl.
  destruct (net _ _) eqn:Hnet; simpl; by rewrite Hnet.
Qed.

Lemma http2_first_request_upgrades_witness :
  p_out (ServeHTTP (Scenario.always Scenario.created) Scenario.in_order
           Scenario.fresh_proxy ResponseWriter.new
           (Scenario.request 2 "192.0.2.1:1234")) = Cases.upgraded_proxy
  ∧ "h2" ∈ Transport.NextProtos
             (Client.Transport
                (Client (p_out (ServeHTTP (Scenario.always Scenario.created)
                                  Scenario.in_order Scenario.fresh_proxy
                                  ResponseWriter.new
                                  (Scenario.request 2 "192.0.2.1:1234"))))).
Proof.
  split; [vm_compute; reflexivity|].
  apply (http2_first_request_upgrades (Scenario.always Scenario.created)
           Scenario.in_order Scenario.fresh_proxy ResponseWriter.new
           (Scenario.request 2 "192.0.2.1:1234") "192.0.2.1" "1234").
  - vm_compute. set_solver.
  - reflexivity.
  - reflexivity.
Defined.

(** X6 — An HTTP/2 request whose address splits, handled by a proxy
    whose transport already has the "https" scheme registered, is answered
    with status 500 and the text of the registration error; the client is
    not called and the proxy is left as it was. *)
Theorem configure_failure_answers_500 net rg p w r ip port :
  "https" ∈ Transport.altProto (Client.Transport (Client p)) →
  Request.ProtoMajor r = 2 →
  Net.SplitHostPort (Request.RemoteAddr r) = inl (ip, port) →
  calls (w_out (ServeHTTP net rg p w r)) =
    calls w ++ [CallWriteHeader 500;
                CallWrite ("protocol https already registered" +:+ newline)]
  ∧ sent (ServeHTTP net rg p w r) = []
  ∧ p_out (ServeHTTP net rg p w r) = p.
Proof.
  intros Hreg Hv Hsplit.
  destruct (http2_after_upgrade net rg p w r ip port Hreg Hv Hsplit)
    as (-> & -> & ->).
  split; [apply calls_internal_error | done].
Qed.

Lemma configure_failure_answers_500_witness :
  calls (w_out (ServeHTTP (Scenario.always Scenario.created)
                  Scenario.in_order Cases.upgraded_proxy ResponseWriter.new
                  (Scenario.request 2 "192.0.2.1:1234"))) =
    [CallWriteHeader 500;
     CallWrite ("protocol https already registered" +:+ newline)].
Proof.
  apply (configure_failure_answers_500 (Scenario.always Scenario.created)
           Scenario.in_order Cases.upgraded_proxy ResponseWriter.new
           (Scenario.request 2 "192.0.2.1:1234") "192.0.2.1" "1234").
  - vm_compute. set_solver.
  - reflexivity.
  - reflexivity.
Defined.

(** X7 — A request that is not HTTP/2 leaves the proxy exactly as it
    was, whatever the handler answers. *)
Theorem http1_keeps_proxy net rg p w r :
  Request.ProtoMajor r ≠ 2 → p_out (ServeHTTP net rg p w r) = p.
Proof. apply p_out_http1. Qed.

Lemma http1_keeps_proxy_witness :
  p_out (ServeHTTP Scenario.unreachable Scenario.in_order
           Cases.upgraded_proxy ResponseWriter.new
           (Scenario.request 1 "192.0.2.1:1234")) = Cases.upgraded_proxy.
Proof.
  apply (http1_keeps_proxy Scenario.unreachable Scenario.in_order
           Cases.upgraded_proxy ResponseWriter.new
           (Scenario.request 1 "192.0.2.1:1234")).
  discriminate.
Defined.

(** X8 — A remote address without any colon, the empty address
    included, is answered with status 500 and the "missing port in
    address" error; the client is not called, the headers of the request
    are left as they were, and so is the proxy. *)
Theorem missing_port_answers_500 net rg p w r :
  Bytes.mem ":" (Request.RemoteAddr r) = false →
  calls (w_out (ServeHTTP net rg p w r)) =
    calls w
    ++ [CallWriteHeader 500;
        CallWrite (Net.addrErr (Request.RemoteAddr r) "missing port in address"
                   +:+ newline)]
  ∧ sent (ServeHTTP net rg p w r) = []
  ∧ Request.Header (r_out (ServeHTTP net rg p w r)) = Request.Header r
  ∧ p_out (ServeHTTP net rg p w r) = p.
Proof.
  intros Hmem.
  assert (Net.SplitHostPort (Request.RemoteAddr r)
          = inr (Net.addrErr (Request.RemoteAddr r) Net.missingPort)) as Hsplit.
  { unfold Net.SplitHostPort, Strings.LastIndexByte.
    by rewrite LastIndexByte_from_absent. }
  rewrite (split_error _ _ _ _ _ _ Hsplit). simpl.
  split; [|done]. by rewrite <- app_assoc.
Qed.

Lemma missing_port_answers_500_witness :
  calls (w_out (ServeHTTP (Scenario.always Scenario.created)
                  Scenario.in_order Scenario.fresh_proxy ResponseWriter.new
                  (Scenario.request 1 ""))) =
    [CallWriteHeader 500; CallWrite ("missing port in address" +:+ newline)].
Proof.
  apply (missing_port_answers_500 (Scenario.always Scenario.created)
           Scenario.in_order Scenario.fresh_proxy ResponseWriter.new
           (Scenario.request 1 "")).
  reflexivity.
Defined.

End calls_more.

Section address_more.
Import ResponseWriter proxy.

Lemma IndexByte_from_append i s1 c s2 :
  Bytes.mem c s1 = false →
  Strings.IndexByte_from i (s1 +:+ String c s2) c = i + Strings.len s1.
Proof.
  revert i. induction s1 as [|d s1 IH]; intros i Hmem.
  - simpl. rewrite eqb_refl_byte. unfold Strings.len. simpl. lia.
  - rewrite append_cons. simpl in *.
    apply orb_false_iff in Hmem as [Hd Hs].
    rewrite eqb_sym_byte, Hd, IH by done. rewrite len_cons. lia.
Qed.

(** An address made of a bracketed host, a colon and a port splits into
    the host without its brackets and the port. *)
Lemma SplitHostPort_bracketed host port :
  Bytes.mem "[" host = false →
  Bytes.mem "]" host = false →
  Bytes.mem ":" port = false →
  Bytes.mem "[" port = false →
  Bytes.mem "]" port = false →
  Net.SplitHostPort ("[" +:+ host +:+ "]:" +:+ port) = inl (host, port).
Proof.
  intros Hl Hr Hpc Hpl Hpr.
  pose proof (len_nonneg host) as Hlen.
  pose proof (len_nonneg port) as Hplen.
  set (hp := "[" +:+ host +:+ "]:" +:+ port).
  assert (hp = ("[" +:+ host +:+ "]") +:+ String ":" port) as Hcolon.
  { unfold hp. by rewrite !append_assoc. }
  assert (hp = String "[" (host +:+ String "]" (":" +:+ port))) as Hclose
    by done.
  assert (Strings.len hp = Strings.len host + 3 + Strings.len port) as Hhp.
  { unfold hp. rewrite !len_append. unfold Strings.len. simpl. lia. }
  assert (Strings.LastIndexByte hp ":" = Strings.len host + 2) as Hi.
  { unfold Strings.LastIndexByte. rewrite Hcolon.
    rewrite LastIndexByte_from_append by done.
    rewrite !len_append. unfold Strings.len. simpl. lia. }
  assert (Strings.IndexByte hp "]" = Strings.len host + 1) as Hend.
  { unfold Strings.IndexByte. rewrite Hclose. simpl.
    rewrite IndexByte_from_append by done. lia. }
  assert (Strings.slice hp 1 (Strings.len host + 1) = host) as Hhost.
  { unfold Strings.slice. rewrite Hclose.
    replace (Z.to_nat (Strings.len host + 1 - 1)) with (String.length host)
      by (unfold Strings.len; lia).
    change (Z.to_nat 1) with 1%nat. simpl. apply substring_prefix. }
  assert (Strings.slice_from hp 1 = host +:+ String "]" (":" +:+ port))
    as Hrest.
  { change hp with ("[" +:+ (host +:+ String "]" (":" +:+ port))).
    change 1 with (Strings.len "["). apply slice_from_suffix. }
  assert (Strings.slice_from hp (Strings.len host + 1 + 1) = ":" +:+ port)
    as Hport1.
  { replace hp with (("[" +:+ host +:+ "]") +:+ (":" +:+ port))
      by (unfold hp; by rewrite !append_assoc).
    replace (Strings.len host + 1 + 1) with (Strings.len ("[" +:+ host +:+ "]"))
      by (rewrite !len_append; unfold Strings.len; simpl; lia).
    apply slice_from_suffix. }
  assert (Strings.slice_from hp (Strings.len host + 2 + 1) = port) as Hport.
  { replace hp with (("[" +:+ host +:+ "]:") +:+ port)
      by (unfold hp; by rewrite !append_assoc).
    replace (Strings.len host + 2 + 1)
      with (Strings.len ("[" +:+ host +:+ "]:"))
      by (rewrite !len_append; unfold Strings.len; simpl; lia).
    apply slice_from_suffix. }
  unfold Net.SplitHostPort. rewrite Hi.
  destruct (Strings.len host + 2 <? 0) eqn:Hneg;
    [apply Z.ltb_lt in Hneg; lia|].
  unfold Net.split_host.
  replace (Net.byte_is hp 0 "[") with true by done.
  rewrite Hend.
  destruct (Strings.len host + 1 <? 0) eqn:Hneg2;
    [apply Z.ltb_lt in Hneg2; lia|].
  rewrite Hhp.
  destruct (Strings.len host + 1 + 1 =? Strings.len host + 3 + Strings.len port)
    eqn:Heq; [apply Z.eqb_eq in Heq; lia|].
  replace (Strings.len host + 1 + 1 =? Strings.len host + 2) with true
    by (symmetry; apply Z.eqb_eq; lia).
  rewrite Hhost, Hrest, Hport1, Hport.
  unfold Strings.IndexByte.
  rewrite !IndexByte_from_absent; [done| |].
  - rewrite mem_append. simpl. by rewrite Hpr.
  - rewrite mem_append. simpl. rewrite mem_append. simpl. by rewrite Hl, Hpl.
Qed.

(** X9 — For a remote address written as a host, a colon and a port,
    none of them holding a colon or a bracket, the forwarded-for header of
    the rewritten request is the host. *)
Theorem forwarded_for_plain_address net rg p w r host port :
  Request.RemoteAddr r = host +:+ ":" +:+ port →
  Bytes.mem ":" host = false →
  Bytes.mem "[" host = false →
  Bytes.mem "]" host = false →
  Bytes.mem ":" port = false →
  Bytes.mem "[" port = false →
  Bytes.mem "]" port = false →
  Request.Header (r_out (ServeHTTP net rg p w r)) !! "X-Forwarded-For"
  = Some [host].
Proof.
  intros Haddr Hc Hl Hr Hpc Hpl Hpr.
  rewrite (r_out_split _ _ _ _ _ host port).
  - apply lookup_insert_eq.
  - rewrite Haddr. by apply SplitHostPort_host_port.
Qed.

Lemma forwarded_for_plain_address_witness :
  Request.Header
    (r_out (ServeHTTP Scenario.unreachable Scenario.in_order
              Scenario.fresh_proxy ResponseWriter.new
              (Scenario.request 1 "proxy-client.internal:51324")))
    !! "X-Forwarded-For"
  = Some ["proxy-client.internal"].
Proof.
  apply (forwarded_for_plain_address Scenario.unreachable Scenario.in_order
           Scenario.fresh_proxy ResponseWriter.new
           (Scenario.request 1 "proxy-client.internal:51324")
           "proxy-client.internal" "51324"); reflexivity.
Defined.

(** X10 — For a remote address written as a bracketed IPv6 address, a
    colon and a port, the forwarded-for header of the rewritten request is
    the address without its brackets. *)
Theorem forwarded_for_bracketed_address net rg p w r host port :
  Request.RemoteAddr r = "[" +:+ host +:+ "]:" +:+ port →
  Bytes.mem "[" host = false →
  Bytes.mem "]" host = false →
  Bytes.mem ":" port = false →
  Bytes.mem "[" port = false →
  Bytes.mem "]" port = false →
  Request.Header (r_out (ServeHTTP net rg p w r)) !! "X-Forwarded-For"
  = Some [host].
Proof.
  intros Haddr Hl Hr Hpc Hpl Hpr.
  rewrite (r_out_split _ _ _ _ _ host port).
  - apply lookup_insert_eq.
  - rewrite Haddr. by apply SplitHostPort_bracketed.
Qed.

Lemma forwarded_for_bracketed_address_witness :
  Request.Header
    (r_out (ServeHTTP Scenario.unreachable Scenario.in_order
              Scenario.fresh_proxy ResponseWriter.new
              (Scenario.request 1 "[2001:db8::1]:443")))
    !! "X-Forwarded-For"
  = Some ["2001:db8::1"].
Proof.
  apply (forwarded_for_bracketed_address Scenario.unreachable
           Scenario.in_order Scenario.fresh_proxy ResponseWriter.new
           (Scenario.request 1 "[2001:db8::1]:443")
           "2001:db8::1" "443"); reflexivity.
Defined.

End address_more.

Section order_more.
Import ResponseWriter proxy.

(** X11 — In front of an upstream whose responses have header keys in
    canonical form and declare at most one trailer, the status, headers
    and body the caller receives for a request do not depend on the order
    in which the three loops visit their maps. *)
Theorem relayed_response_order_free (net : Network) rg1 rg2 p w r :
  fair rg1 → fair rg2 →
  (∀ c q resp, net c q = inl resp →
     canonical_keys (Response.Header resp)
     ∧ (size (Response.Trailer resp) ≤ 1)%nat) →
  relayed (w_out (ServeHTTP net rg1 p w r))
  = relayed (w_out (ServeHTTP net rg2 p w r)).
Proof.
  intros Hfair1 Hfair2 Hnet. unfold ServeHTTP. simpl.
  destruct (Net.SplitHostPort (Request.RemoteAddr r)) as [[ip port]|err];
    simpl; [|done].
  destruct (Request.ProtoMajor r =? 2); simpl;
    [destruct (Http2.ConfigureTransport _); simpl; [|done] |];
    (destruct (net _ _) as [resp|err] eqn:Hresp; simpl; [|done];
     destruct (Hnet _ _ _ Hresp); by apply relayed_any_order).
Qed.

Lemma relayed_response_order_free_witness :
  relayed (w_out (ServeHTTP (Scenario.always Scenario.created)
                    Scenario.in_order Scenario.fresh_proxy ResponseWriter.new
                    (Scenario.request 1 "192.0.2.1:1234")))
  = relayed (w_out (ServeHTTP (Scenario.always Scenario.created)
                      Scenario.reversed Scenario.fresh_proxy
                      ResponseWriter.new
                      (Scenario.request 1 "192.0.2.1:1234"))).
Proof.
  apply (relayed_response_order_free (Scenario.always Scenario.created)
           Scenario.in_order Scenario.reversed).
  - repeat split; intros m; reflexivity.
  - repeat split; intros m; simpl; apply reverse_Permutation.
  - intros c q resp Hresp. injection Hresp as <-. split.
    + intros k [vs Hk]. simpl in Hk.
      apply lookup_insert_Some in Hk as [[<- _]|[_ Hk]]; [reflexivity|].
      by apply lookup_singleton_Some in Hk as [<- _].
    + simpl. rewrite map_size_singleton. lia.
Defined.

End order_more.

(** * The handler before HTTP/2 and trailers *)

Section plain_facts.
Import ResponseWriter proxy.

Lemma plain_sent_relay net range p w r q resp :
  (q, inl resp) ∈ sent (proxy_plain.ServeHTTP net range p w r) →
  w_out (proxy_plain.ServeHTTP net range p w r)
  = proxy_plain.relay range resp w
  ∧ q = r_out (proxy_plain.ServeHTTP net range p w r).
Proof.
  unfold proxy_plain.ServeHTTP. simpl.
  destruct (Net.SplitHostPort (Request.RemoteAddr r)) as [[ip port]|err];
    simpl.
  - destruct (net _ _); simpl; intros Hin;
      apply list_elem_of_singleton in Hin; by inversion Hin.
  - intros Hin. by apply elem_of_nil in Hin.
Qed.

Lemma plain_wrote_relay range resp w :
  wrote w = None →
  wrote (proxy_plain.relay range resp w) =
    Some (Response.StatusCode resp,
          header (copy_entries (range (Response.Header resp)) w)).
Proof.
  intros Hw. unfold proxy_plain.relay.
  erewrite wrote_Copy; [done|].
  simpl. unfold commit. by rewrite wrote_copy_entries, Hw.
Qed.

Lemma plain_body_relay range resp w :
  body (proxy_plain.relay range resp w)
  = body w +:+ foldr String.append "" (Response.Body resp).
Proof.
  unfold proxy_plain.relay. rewrite body_Copy. simpl.
  by rewrite body_copy_entries.
Qed.

(** X12 — In the handler without trailers, whenever the client call
    returned a response, every header key of that response whose
    canonical form no other key of the response shares, [Trailer]
    included, is present on the relayed response with exactly the last of
    its values. *)
Theorem plain_relays_every_header net range p w r q resp k vs v :
  visits_all range →
  wrote w = None →
  (q, inl resp) ∈ sent (proxy_plain.ServeHTTP net range p w r) →
  Response.Header resp !! k = Some vs →
  last vs = Some v →
  (∀ k', is_Some (Response.Header resp !! k') →
         Textproto.CanonicalMIMEHeaderKey k' = Textproto.CanonicalMIMEHeaderKey k →
         k' = k) →
  ∃ rel,
    relayed (w_out (proxy_plain.ServeHTTP net range p w r)) = Some rel
    ∧ status rel = Response.StatusCode resp
    ∧ headers rel !! Textproto.CanonicalMIMEHeaderKey k = Some [v].
Proof.
  intros Hvisit Hw Hsent Hk Hlast Hsole.
  destruct (plain_sent_relay _ _ _ _ _ _ _ Hsent) as [-> _].
  unfold relayed. rewrite plain_wrote_relay by done.
  eexists. split; [done|]. split; [done|]. simpl.
  apply (lookup_copy_entries _ _ _ vs); [|done|].
  - rewrite (Hvisit _). by apply elem_of_map_to_list.
  - intros [k' vs'] He Hsame. simpl in Hsame.
    rewrite (Hvisit _) in He. apply elem_of_map_to_list in He.
    assert (k' = k) as -> by (apply Hsole; [by eexists | done]).
    congruence.
Qed.

Lemma plain_relays_every_header_witness :
  ∃ rel,
    relayed (w_out (proxy_plain.ServeHTTP
                      (Scenario.always Scenario.trailer_header_kept)
                      map_to_list Scenario.fresh_proxy ResponseWriter.new
                      (Scenario.request 1 "192.0.2.1:1234"))) = Some rel
    ∧ status rel = 200
    ∧ headers rel !! "Trailer" = Some ["X-Trailer"].
Proof.
  apply (plain_relays_every_header _ _ _ _ _
           (r_out (proxy_plain.ServeHTTP
                     (Scenario.always Scenario.trailer_header_kept)
                     map_to_list Scenario.fresh_proxy ResponseWriter.new
                     (Scenario.request 1 "192.0.2.1:1234")))
           Scenario.trailer_header_kept "Trailer" ["X-Trailer"] "X-Trailer").
  - intros m. reflexivity.
  - reflexivity.
  - vm_compute. left.
  - reflexivity.
  - reflexivity.
  - intros k' [vs' Hk'] Hsame. simpl in Hk'.
    apply lookup_insert_Some in Hk' as [[<- _]|[_ Hk']].
    + vm_compute in Hsame. discriminate.
    + by apply lookup_singleton_Some in Hk' as [<- _].
Defined.

(** X13 — For a request that is not HTTP/2, the handler with trailers
    behaves like the handler without them up to the trailers: both leave
    the same request and the same proxy and make the same client calls,
    and when the call returned a response the caller receives the same
    status and body, and headers that differ only by the [Trailer]
    announcement. *)
Theorem trailers_extend_plain net rg p w r :
  wrote w = None →
  Request.ProtoMajor r ≠ 2 →
  let plain := proxy_plain.ServeHTTP net (range_header rg) p w r in
  let full := ServeHTTP net rg p w r in
  sent full = sent plain
  ∧ r_out full = r_out plain
  ∧ p_out full = p_out plain
  ∧ match sent plain with
    | [(_, inl resp)] =>
        ∃ old new,
          relayed (w_out plain) = Some old
          ∧ relayed (w_out full) = Some new
          ∧ status new = status old
          ∧ content new = content old
          ∧ headers new =
              <["Trailer" :=
                  [Strings.Join
                     (range_trailer_keys rg (Response.Trailer resp)).*1 ","]]>
                (headers old)
    | _ => w_out full = w_out plain
    end.
Proof.
  intros Hw Hv. apply Z.eqb_neq in Hv.
  destruct p as [upstream [timeout transport]].
  unfold proxy_plain.ServeHTTP, ServeHTTP. simpl. rewrite Hv.
  destruct (Net.SplitHostPort (Request.RemoteAddr r)) as [[ip port]|err];
    simpl; [|by repeat split].
  unfold set_Transport. simpl.
  destruct (net _ _) as [resp|err]; simpl; [|by repeat split].
  repeat split; try done.
  unfold relayed.
  rewrite plain_wrote_relay, wrote_relay by done.
  eexists _, _. split; [done|]. split; [done|]. simpl.
  split; [done|]. split; [|done].
  by rewrite body_relay, plain_body_relay.
Qed.

Lemma trailers_extend_plain_witness :
  sent (ServeHTTP (Scenario.always Scenario.created) Scenario.in_order
          Scenario.fresh_proxy ResponseWriter.new
          (Scenario.request 1 "192.0.2.1:1234"))
  = sent (proxy_plain.ServeHTTP (Scenario.always Scenario.created)
            (range_header Scenario.in_order) Scenario.fresh_proxy
            ResponseWriter.new (Scenario.request 1 "192.0.2.1:1234")).
Proof.
  destruct (trailers_extend_plain (Scenario.always Scenario.created)
              Scenario.in_order Scenario.fresh_proxy ResponseWriter.new
              (Scenario.request 1 "192.0.2.1:1234")) as [Hsent _].
  - reflexivity.
  - discriminate.
  - exact Hsent.
Defined.

End plain_facts.

(** * The settings of [run] *)

Section settings_facts.
Import main.

Context (ParseDuration : string → Z + error).

Lemma is_empty_true s : Strings.is_empty s = true ↔ s = "".
Proof. destruct s; simpl; split; (done || congruence). Qed.

Lemma Getenv_with_default env key value key' :
  Strings.is_empty value = false →
  Getenv (with_default key value env) key' =
    if decide (key' = key) then or_default (Getenv env key) value
    else Getenv env key'.
Proof.
  intros Hvalue. unfold with_default, or_default.
  destruct (Strings.is_empty (Getenv env key)) eqn:Hempty.
  - unfold Getenv. destruct (decide (key' = key)) as [->|Hne].
    + by rewrite lookup_insert_eq.
    + by rewrite lookup_insert_ne.
  - by destruct (decide (key' = key)) as [->|Hne].
Qed.

Lemma or_default_idem s value :
  Strings.is_empty value = false →
  or_default (or_default s value) value = or_default s value.
Proof.
  intros Hvalue. unfold or_default.
  destruct (Strings.is_empty s) eqn:Hs; [by rewrite Hvalue | by rewrite Hs].
Qed.

(** X14 — The settings are obtained exactly when [HOST] is set to a
    non-empty string and each of the three timeouts, or its default
    [5s], [10s], [20s] when the variable is unset or empty, is accepted by
    the duration parser; they then hold that host and the parsed
    durations. *)
Theorem settings_succeed_iff env s :
  settings ParseDuration env = inl s ↔
    host s = Getenv env "HOST"
    ∧ host s ≠ ""
    ∧ ParseDuration (or_default (Getenv env "READ_TIMEOUT") "5s")
      = inl (readTimeout s)
    ∧ ParseDuration (or_default (Getenv env "WRITE_TIMEOUT") "10s")
      = inl (writeTimeout s)
    ∧ ParseDuration (or_default (Getenv env "SHUTDOWN_TIMEOUT") "20s")
      = inl (shutdownTimeout s).
Proof.
  unfold settings.
  destruct (Strings.is_empty (Getenv env "HOST")) eqn:Hhost.
  - apply is_empty_true in Hhost. split; [done|].
    intros (Hs & Hne & _). congruence.
  - assert (Getenv env "HOST" ≠ "") as Hne
      by (intros Heq; apply is_empty_true in Heq; congruence).
    destruct (ParseDuration (or_default (Getenv env "READ_TIMEOUT") "5s"))
      as [rd|e1]; [|split; [done | by intros (_ & _ & ? & _)]].
    destruct (ParseDuration (or_default (Getenv env "WRITE_TIMEOUT") "10s"))
      as [wr|e2]; [|split; [done | by intros (_ & _ & _ & ? & _)]].
    destruct (ParseDuration (or_default (Getenv env "SHUTDOWN_TIMEOUT") "20s"))
      as [sd|e3]; [|split; [done | by intros (_ & _ & _ & _ & ?)]].
    split.
    + intros [= <-]. simpl. by repeat split.
    + intros (Hh & _ & [= Hr] & [= Hw] & [= Hd]).
      destruct s; simpl in *. by subst.
Qed.

(** X15 — Setting to its default a timeout variable that is unset or
    empty changes nothing: the settings, or the error, are the same. *)
Theorem settings_defaults env :
  settings ParseDuration
    (with_default "READ_TIMEOUT" "5s"
       (with_default "WRITE_TIMEOUT" "10s"
          (with_default "SHUTDOWN_TIMEOUT" "20s" env)))
  = settings ParseDuration env.
Proof.
  unfold settings.
  rewrite !Getenv_with_default by done. simpl.
  by rewrite !or_default_idem.
Qed.

(** X16 — When the settings are refused, the error is either the one
    about the missing [HOST], or it names a timeout string, the variable's
    value or its default, followed by the error the duration parser
    returned for that very string. *)
Theorem settings_errors env err :
  settings ParseDuration env = inr err →
  (Getenv env "HOST" = "" ∧ err = "HOST is required environment variable")
  ∨ ∃ key fallback cause,
      (key, fallback) ∈ [("READ_TIMEOUT", "5s"); ("WRITE_TIMEOUT", "10s");
                         ("SHUTDOWN_TIMEOUT", "20s")]
      ∧ Getenv env "HOST" ≠ ""
      ∧ ParseDuration (or_default (Getenv env key) fallback) = inr cause
      ∧ err = or_default (Getenv env key) fallback
              +:+ " is not a valid duration: " +:+ cause.
Proof.
  unfold settings.
  destruct (Strings.is_empty (Getenv env "HOST")) eqn:Hhost.
  - apply is_empty_true in Hhost. intros [= <-]. by left.
  - assert (Getenv env "HOST" ≠ "") as Hne
      by (intros Heq; apply is_empty_true in Heq; congruence).
    destruct (ParseDuration (or_default (Getenv env "READ_TIMEOUT") "5s"))
      as [rd|e1] eqn:Hrd.
    2: { intros [= <-]. right. exists "READ_TIMEOUT", "5s", e1.
         split; [by left | done]. }
    destruct (ParseDuration (or_default (Getenv env "WRITE_TIMEOUT") "10s"))
      as [wr|e2] eqn:Hwr.
    2: { intros [= <-]. right. exists "WRITE_TIMEOUT", "10s", e2.
         split; [right; by left | done]. }
    destruct (ParseDuration (or_default (Getenv env "SHUTDOWN_TIMEOUT") "20s"))
      as [sd|e3] eqn:Hsd; [done|].
    intros [= <-]. right. exists "SHUTDOWN_TIMEOUT", "20s", e3.
    split; [right; right; by left | done].
Qed.

End settings_facts.

Lemma settings_succeed_iff_witness :
  main.settings Time.ParseDuration Cases.environment =
    inl {| main.host := "0.0.0.0:8080";
           main.readTimeout := 5 * Second;
           main.writeTimeout := 30 * Second;
           main.shutdownTimeout := 20 * Second |}.
Proof.
  apply (settings_succeed_iff Time.ParseDuration Cases.environment).
  repeat split. discriminate.
Defined.

Lemma settings_errors_witness :
  (main.Getenv (<["READ_TIMEOUT" := "5"]> Cases.environment) "HOST" = ""
   ∧ "5 is not a valid duration: time: missing unit in duration "
     +:+ Time.quote "5"
     = "HOST is required environment variable")
  ∨ ∃ key fallback cause,
      (key, fallback) ∈ [("READ_TIMEOUT", "5s"); ("WRITE_TIMEOUT", "10s");
                         ("SHUTDOWN_TIMEOUT", "20s")]
      ∧ main.Getenv (<["READ_TIMEOUT" := "5"]> Cases.environment) "HOST" ≠ ""
      ∧ Time.ParseDuration
          (main.or_default
             (main.Getenv (<["READ_TIMEOUT" := "5"]> Cases.environment) key)
             fallback) = inr cause
      ∧ "5 is not a valid duration: time: missing unit in duration "
        +:+ Time.quote "5"
        = main.or_default
            (main.Getenv (<["READ_TIMEOUT" := "5"]> Cases.environment) key)
            fallback
          +:+ " is not a valid duration: " +:+ cause.
Proof.
  apply (settings_errors Time.ParseDuration
           (<["READ_TIMEOUT" := "5"]> Cases.environment)).
  reflexivity.
Defined.

(** What [time.ParseDuration] makes of some strings: units, fractions,
    the largest duration, and the three kinds of error. *)
Example ParseDuration_examples :
  Time.ParseDuration "5m" = inl (5 * Time.Minute)
  ∧ Time.ParseDuration "500ms" = inl (500 * Millisecond)
  ∧ Time.ParseDuration "1.5s" = inl (1500 * Millisecond)
  ∧ Time.ParseDuration "1h15m30.918273645s" = inl 4530918273645
  ∧ Time.ParseDuration "0.3333333333333333333h" = inl (20 * Time.Minute)
  ∧ Time.ParseDuration "-1.5h" = inl (- (90 * Time.Minute))
  ∧ Time.ParseDuration "9223372036854775807ns" = inl (2 ^ 63 - 1)
  ∧ Time.ParseDuration "9223372037s"
    = inr ("time: invalid duration " +:+ Time.quote "9223372037s")
  ∧ Time.ParseDuration "5"
    = inr ("time: missing unit in duration " +:+ Time.quote "5")
  ∧ Time.ParseDuration "5 minutes"
    = inr ("time: unknown unit " +:+ Time.quote " minutes"
           +:+ " in duration " +:+ Time.quote "5 minutes").
Proof. repeat split; vm_compute; reflexivity. Qed.
